(** * potranslate: catalog synchronisation engine

    A shallow embedding of [main.go]: the escaper, the POT parser, the
    incremental synchroniser ([translatePoFile]), the rewrite synchroniser
    ([rewritePoFile]), the bootstrap cloner ([copyPotToPo]), the target
    language detection ([getTargetLanguage]) and the parts of [main] that
    decide exit codes.

    Go strings are byte sequences and are modelled by [string] (a list of
    [ascii] bytes).  Go maps are modelled by [gmap string _]; the order in
    which a [range] loop visits a map is not fixed by the language, so every
    function that ranges over a map takes the visiting order as an explicit
    argument.  The file system is a finite map from paths to contents. *)

From Stdlib Require Import Ascii.
From stdpp Require Import gmap strings list.

Local Open Scope stdpp_scope.

(** ** Bytes that cannot be written inside a literal *)

Definition byte (n : nat) : string := String (ascii_of_nat n) EmptyString.

Definition dquote : string := byte 34.
Definition bslash : string := byte 92.
Definition newline : string := byte 10.
Definition tab : string := byte 9.

(** ** The functions of Go's [strings] package used by the program *)

Module GoStrings.

(** [s[n:]] *)
Fixpoint dropBytes (n : nat) (s : string) : string :=
  match n, s with
  | O, _ => s
  | S n', String _ s' => dropBytes n' s'
  | S _, EmptyString => EmptyString
  end.

(** [s[:n]] *)
Fixpoint takeBytes (n : nat) (s : string) : string :=
  match n, s with
  | O, _ => EmptyString
  | S n', String c s' => String c (takeBytes n' s')
  | S _, EmptyString => EmptyString
  end.

Definition HasPrefix (s prefix : string) : bool := String.prefix prefix s.

Definition HasSuffix (s suffix : string) : bool :=
  String.prefix (String.rev suffix) (String.rev s).

Definition TrimPrefix (s prefix : string) : string :=
  if HasPrefix s prefix then dropBytes (String.length prefix) s else s.

Definition TrimSuffix (s suffix : string) : string :=
  if HasSuffix s suffix
  then takeBytes (String.length s - String.length suffix) s
  else s.

Fixpoint Contains (s substr : string) : bool :=
  match s with
  | EmptyString => String.prefix substr EmptyString
  | String _ s' => String.prefix substr s || Contains s' substr
  end.

(** [strings.Split] for a non-empty separator: the pieces between the
    non-overlapping occurrences of [sep], found from left to right.  [skip]
    counts the bytes of a matched separator still to be passed over; [cur]
    is the current piece, reversed. *)
Fixpoint Split_go (sep : string) (skip : nat) (cur s : string) : list string :=
  match s with
  | EmptyString => [String.rev cur]
  | String c s' =>
      match skip with
      | S k => Split_go sep k cur s'
      | O =>
          if String.prefix sep s
          then String.rev cur :: Split_go sep (String.length sep - 1) EmptyString s'
          else Split_go sep O (String c cur) s'
      end
  end.

Definition Split (s sep : string) : list string := Split_go sep O EmptyString s.

Fixpoint Join (elems : list string) (sep : string) : string :=
  match elems with
  | [] => EmptyString
  | [e] => e
  | e :: rest => e +:+ sep +:+ Join rest sep
  end.

(** [strings.ReplaceAll] for a non-empty [old]: the non-overlapping
    occurrences, from left to right. *)
Fixpoint ReplaceAll_go (old new : string) (skip : nat) (s : string) : string :=
  match s with
  | EmptyString => EmptyString
  | String c s' =>
      match skip with
      | S k => ReplaceAll_go old new k s'
      | O =>
          if String.prefix old s
          then new +:+ ReplaceAll_go old new (String.length old - 1) s'
          else String c (ReplaceAll_go old new O s')
      end
  end.

Definition ReplaceAll (s old new : string) : string := ReplaceAll_go old new O s.

(** The white space of [unicode.IsSpace], as UTF-8 byte sequences: the six
    ASCII characters, U+0085, U+00A0, U+1680, U+2000 to U+200A, U+2028,
    U+2029, U+202F, U+205F and U+3000.  A white-space rune has exactly one
    valid encoding and every first byte of a multi-byte sequence is a
    rune start, so stripping these sequences from either end is what
    decoding rune by rune does. *)
Definition bytes (l : list nat) : string :=
  fold_right (λ n s, String (ascii_of_nat n) s) EmptyString l.

Definition spaceSeqs : list string :=
  [ bytes [9]; bytes [10]; bytes [11]; bytes [12]; bytes [13];
    bytes [32];
    bytes [194; 133]; bytes [194; 160];
    bytes [225; 154; 128];
    bytes [226; 128; 128]; bytes [226; 128; 129];
    bytes [226; 128; 130]; bytes [226; 128; 131];
    bytes [226; 128; 132]; bytes [226; 128; 133];
    bytes [226; 128; 134]; bytes [226; 128; 135];
    bytes [226; 128; 136]; bytes [226; 128; 137];
    bytes [226; 128; 138];
    bytes [226; 128; 168]; bytes [226; 128; 169];
    bytes [226; 128; 175];
    bytes [226; 129; 159];
    bytes [227; 128; 128] ].

(** Remove one leading white-space rune, if there is one. *)
Fixpoint stripOne (seqs : list string) (s : string) : option string :=
  match seqs with
  | [] => None
  | q :: seqs' =>
      if String.prefix q s then Some (dropBytes (String.length q) s)
      else stripOne seqs' s
  end.

Fixpoint trimLeft_go (seqs : list string) (fuel : nat) (s : string) : string :=
  match fuel with
  | O => s
  | S fuel' =>
      match stripOne seqs s with
      | Some s' => trimLeft_go seqs fuel' s'
      | None => s
      end
  end.

Definition trimLeft (s : string) : string :=
  trimLeft_go spaceSeqs (String.length s) s.

Definition trimRight (s : string) : string :=
  String.rev (trimLeft_go (String.rev <$> spaceSeqs) (String.length s) (String.rev s)).

Definition TrimSpace (s : string) : string := trimRight (trimLeft s).

Definition upperByte (c : ascii) : ascii :=
  let n := nat_of_ascii c in
  if (97 <=? n) && (n <=? 122) then ascii_of_nat (n - 32) else c.

(** [strings.ToUpper] on ASCII text. *)
Fixpoint ToUpperASCII (s : string) : string :=
  match s with
  | EmptyString => EmptyString
  | String c s' => String (upperByte c) (ToUpperASCII s')
  end.

End GoStrings.

Import GoStrings.

(** ** Run-time failures

    A Go slice expression whose bounds are out of range panics.  A panic is
    modelled by [None]; loops over lines are folds in the option monad. *)

Fixpoint foldM {A S : Type} (f : S → A → option S) (st : S) (l : list A) : option S :=
  match l with
  | [] => Some st
  | x :: l' => st' ← f st x; foldM f st' l'
  end.

(** [s[lo:hi]] on a string, panicking unless [lo <= hi <= len(s)]. *)
Definition slice (s : string) (lo hi : nat) : option string :=
  if (lo <=? hi) && (hi <=? String.length s)
  then Some (takeBytes (hi - lo) (dropBytes lo s))
  else None.

(** ** The escaper *)

(** [extractString], main.go lines 339-349.  [len(s)-1] is computed on
    integers; for the one-byte string holding a lone quote the bounds are
    [1:0] and the slice panics. *)
Definition extractString (s : string) : option string :=
  let s := TrimSpace s in
  s ← (if HasPrefix s dquote && HasSuffix s dquote
       then slice s 1 (String.length s - 1)
       else Some s);
  let s := ReplaceAll s (bslash +:+ "n") newline in
  let s := ReplaceAll s (bslash +:+ "t") tab in
  let s := ReplaceAll s (bslash +:+ dquote) dquote in
  Some s.

(** [escapeString], main.go lines 351-357. *)
Definition escapeString (s : string) : string :=
  let s := ReplaceAll s bslash (bslash +:+ bslash) in
  let s := ReplaceAll s dquote (bslash +:+ dquote) in
  let s := ReplaceAll s newline (bslash +:+ "n") in
  let s := ReplaceAll s tab (bslash +:+ "t") in
  s.

(** The literal written for a text: the text between two quotes. *)
Definition quoted (s : string) : string := dquote +:+ s +:+ dquote.

(** ** Files and lines *)

Definition isEmpty (s : string) : bool :=
  match s with EmptyString => true | String _ _ => false end.

Definition nonEmpty (s : string) : bool := negb (isEmpty s).

(** The keyword tests of the line classifiers, on a trimmed line. *)
Definition isMsgid (trimmed : string) : bool := HasPrefix trimmed "msgid ".
Definition isMsgstr (trimmed : string) : bool := HasPrefix trimmed "msgstr ".
Definition isLiteral (trimmed : string) : bool := HasPrefix trimmed dquote.
Definition isComment (trimmed : string) : bool := HasPrefix trimmed "#".

(** The lines a [bufio.Scanner] yields for a file: split at line feeds, one
    trailing carriage return dropped from each, and no empty last line.  The
    scanner holds a line in a buffer of at most [MaxScanTokenSize] bytes and
    finds the end of a line only inside it: a line of 64 KiB or more, its
    carriage return counted, ends the scan with [ErrTooLong], and neither
    that line nor any line after it is yielded. *)
Definition dropCR (s : string) : string := TrimSuffix s (byte 13).

Definition maxScanTokenSize : N := 65536.

Definition fitsScanner (raw : string) : bool :=
  (N.of_nat (String.length raw) <? maxScanTokenSize)%N.

(** The lines yielded, and whether the scan ended with [ErrTooLong]. *)
Fixpoint scanParts (parts : list string) : list string * bool :=
  match parts with
  | [] => ([], false)
  | raw :: rest =>
      if fitsScanner raw
      then let '(lines, tooLong) := scanParts rest in (dropCR raw :: lines, tooLong)
      else ([], true)
  end.

Definition scanFile (content : string) : list string * bool :=
  let parts := Split content newline in
  let parts := if isEmpty (List.last parts "x") then removelast parts else parts in
  scanParts parts.

Definition scanLines (content : string) : list string := (scanFile content).1.

(** The text of the error of [os.Open] and [os.ReadFile] for a path that
    does not exist. *)
Definition noSuchFile (path : string) : string :=
  "open " +:+ path +:+ ": no such file or directory".

(** The [Language:] field of a line, as [parsePotFile] (lines 269-281) and
    [getTargetLanguage] (lines 369-381) read it: the text between the first
    and the second colon, without its quotes; [None] when the line has no
    such field or the field is empty. *)
Definition languageOf (line : string) : option string :=
  if Contains line (dquote +:+ "Language:") then
    match Split line ":" with
    | _ :: part :: _ =>
        let lang := TrimSpace part in
        let lang := TrimPrefix lang dquote in
        let lang := TrimSuffix lang (bslash +:+ "n" +:+ dquote) in
        let lang := TrimSuffix lang dquote in
        if nonEmpty lang then Some lang else None
    | _ => None
    end
  else None.

(** ** The POT parser *)

Record POEntry := mkPOEntry { Msgstr : string; Comments : list string }.

Record potState := mkPotState {
  pot_entries : gmap string POEntry;
  pot_currentMsgid : string;
  pot_currentMsgstr : string;
  pot_currentComments : list string;
  pot_pendingComments : list string;
  pot_inMsgid : bool;
  pot_inMsgstr : bool;
  pot_sourceLang : string
}.

Definition potInit : potState :=
  mkPotState ∅ EmptyString EmptyString [] [] false false EmptyString.

(** The entry in progress is stored when its key is not empty (lines 285-290
    and 322-327). *)
Definition potSave (st : potState) : gmap string POEntry :=
  if nonEmpty (pot_currentMsgid st)
  then <[pot_currentMsgid st := mkPOEntry (pot_currentMsgstr st) (pot_currentComments st)]>
         (pot_entries st)
  else pot_entries st.

(** One iteration of the scanning loop of [parsePotFile], lines 264-319. *)
Definition potStep (st : potState) (line : string) : option potState :=
  let trimmed := TrimSpace line in
  let lang := match languageOf line with
              | Some l => l
              | None => pot_sourceLang st
              end in
  if isMsgid trimmed then
    msgid ← extractString (dropBytes 6 trimmed);
    Some (mkPotState (potSave st) msgid EmptyString (pot_pendingComments st) []
            true false lang)
  else if isMsgstr trimmed then
    msgstr ← extractString (dropBytes 7 trimmed);
    Some (mkPotState (pot_entries st) (pot_currentMsgid st) msgstr
            (pot_currentComments st) (pot_pendingComments st) false true lang)
  else if isLiteral trimmed && (pot_inMsgid st || pot_inMsgstr st) then
    str ← extractString trimmed;
    if pot_inMsgid st then
      Some (mkPotState (pot_entries st) (pot_currentMsgid st +:+ str)
              (pot_currentMsgstr st) (pot_currentComments st)
              (pot_pendingComments st) (pot_inMsgid st) (pot_inMsgstr st) lang)
    else
      Some (mkPotState (pot_entries st) (pot_currentMsgid st)
              (pot_currentMsgstr st +:+ str) (pot_currentComments st)
              (pot_pendingComments st) (pot_inMsgid st) (pot_inMsgstr st) lang)
  else if isComment trimmed then
    Some (mkPotState (pot_entries st) (pot_currentMsgid st) (pot_currentMsgstr st)
            (pot_currentComments st)
            (if negb (pot_inMsgid st) && negb (pot_inMsgstr st)
             then pot_pendingComments st ++ [line]
             else pot_pendingComments st)
            false false lang)
  else if isEmpty trimmed then
    Some (mkPotState (pot_entries st) (pot_currentMsgid st) (pot_currentMsgstr st)
            (pot_currentComments st) (pot_pendingComments st) false false lang)
  else
    Some (mkPotState (pot_entries st) (pot_currentMsgid st) (pot_currentMsgstr st)
            (pot_currentComments st) (pot_pendingComments st)
            (pot_inMsgid st) (pot_inMsgstr st) lang).

(** What a Go function hands back: its value, an [error], or a panic. *)
Inductive result (A : Type) : Type :=
  | Done (a : A)
  | Fail (msg : string)
  | Crash.
Arguments Done {A} a.
Arguments Fail {A} msg.
Arguments Crash {A}.

Definition parsePotLines (lines : list string) : option (gmap string POEntry * string) :=
  st ← foldM potStep potInit lines;
  Some (delete EmptyString (potSave st), pot_sourceLang st).

(** [parsePotFile], lines 249-337.  The error of the scanner is looked at
    after the loop (lines 329-331). *)
Definition parsePotFile (files : gmap string string) (potFile : string)
  : result (gmap string POEntry * string) :=
  match files !! potFile with
  | None => Fail (noSuchFile potFile)
  | Some content =>
      let '(lines, tooLong) := scanFile content in
      match parsePotLines lines with
      | Some r => if tooLong then Fail "bufio.Scanner: token too long" else Done r
      | None => Crash
      end
  end.

(** The order in which the keys of a template are met in its file: the keys
    in the order in which the loop of [parsePotFile] stores them, the header
    key left out and a repeated key listed where it is first stored.  The
    program itself keeps no such list. *)
Fixpoint potTrail (st : potState) (lines : list string) : list string :=
  match lines with
  | [] => [pot_currentMsgid st]
  | line :: rest =>
      (if isMsgid (TrimSpace line) then [pot_currentMsgid st] else [])
      ++ match potStep st line with
         | Some st' => potTrail st' rest
         | None => []
         end
  end.

Definition templateOrder (lines : list string) : list string :=
  remove_dups (filter (λ k, k ≠ EmptyString) (potTrail potInit lines)).

(** ** The world outside the program

    The interrupt flag is written by the signal handler and read by the main
    goroutine; the model numbers the reads and lets the environment say what
    each read sees.  The translation backend may answer differently from one
    call to the next, so it is given the number of the call.  Reads of files,
    progress output and the pause between calls leave no mark; the read of
    the flag that only decides whether to pause (lines 576 and 815) is left
    out with the pause.  A file is written as a whole and the write always
    succeeds; a file can be read exactly when its path is present. *)

Inductive event : Type :=
  | EvPoll (seen : bool)
  | EvCall (text : string)
  | EvWrite (path content : string).

Record world := mkWorld {
  files : gmap string string;
  polls : nat;
  calls : nat;
  trace : list event
}.

Record env := mkEnv {
  flag : nat → bool;
  backend : nat → string → string → string → option string
}.

Definition newWorld (fs : gmap string string) : world := mkWorld fs 0 0 [].

(** A read of [interrupted]. *)
Definition poll (e : env) (w : world) : bool * world :=
  let b := flag e (polls w) in
  (b, mkWorld (files w) (S (polls w)) (calls w) (trace w ++ [EvPoll b])).

(** [gtranslate.TranslateWithParams]. *)
Definition translateCall (e : env) (text src tgt : string) (w : world)
  : option string * world :=
  (backend e (calls w) text src tgt,
   mkWorld (files w) (polls w) (S (calls w)) (trace w ++ [EvCall text])).

(** [os.WriteFile]. *)
Definition writeFile (path content : string) (w : world) : world :=
  mkWorld (<[path := content]> (files w)) (polls w) (calls w)
          (trace w ++ [EvWrite path content]).

(** ** Writing an entry *)

(** The literal lines of a text with line feeds, one per piece; an empty
    last piece is not written (lines 461-468). *)
Fixpoint formatParts (parts : list string) : list string :=
  match parts with
  | [] => []
  | [part] => if nonEmpty part then [quoted (escapeString part)] else []
  | part :: rest =>
      quoted (escapeString part +:+ bslash +:+ "n") :: formatParts rest
  end.

(** The lines written for [msgid] or [msgstr] with the text [s].  The
    program spells this block out four times: lines 458-471, 632-645,
    846-859 and 869-882. *)
Definition formatField (keyword s : string) : list string :=
  if Contains s newline
  then (keyword +:+ " " +:+ quoted EmptyString) :: formatParts (Split s newline)
  else [keyword +:+ " " +:+ quoted (escapeString s)].

(** ** Incremental synchronisation: [translatePoFile] *)

(** *** First pass: the keys the file has (lines 406-431) *)

Record scanState := mkScanState {
  sc_currentMsgid : string;
  sc_inMsgid : bool;
  sc_inMsgstr : bool;
  sc_existing : gmap string bool
}.

Definition scanInit : scanState := mkScanState EmptyString false false ∅.

Definition scanStep (st : scanState) (line : string) : option scanState :=
  let trimmed := TrimSpace line in
  if isMsgid trimmed then
    msgid ← extractString (dropBytes 6 trimmed);
    Some (mkScanState msgid true false (sc_existing st))
  else if isMsgstr trimmed then
    Some (mkScanState (sc_currentMsgid st) false true
            (if nonEmpty (sc_currentMsgid st)
             then <[sc_currentMsgid st := true]> (sc_existing st)
             else sc_existing st))
  else if isLiteral trimmed && sc_inMsgid st then
    str ← extractString trimmed;
    Some (mkScanState (sc_currentMsgid st +:+ str) (sc_inMsgid st) (sc_inMsgstr st)
            (sc_existing st))
  else if isEmpty trimmed || isComment trimmed then
    Some (mkScanState (sc_currentMsgid st) false false (sc_existing st))
  else Some st.

Definition collectExisting (lines : list string) : option (gmap string bool) :=
  sc_existing <$> foldM scanStep scanInit lines.

(** [existingMsgids[msgid]]: an absent key reads as [false]. *)
Definition present (existing : gmap string bool) (msgid : string) : bool :=
  default false (existing !! msgid).

(** Lines 433-439.  [visit] is the order in which [range potEntries] hands
    out the keys of the template. *)
Definition missingMsgids (visit : list string) (existing : gmap string bool)
  : list string :=
  fold_left (λ missing msgid,
               if nonEmpty msgid && negb (present existing msgid)
               then missing ++ [msgid] else missing)
            visit [].

(** *** Adding the missing entries (lines 441-473) *)

Definition addedComments (potEntries : gmap string POEntry) (msgid : string)
  : list string :=
  match potEntries !! msgid with
  | Some entry =>
      match Comments entry with
      | [] => ["#: (added from POT)"]
      | comments => comments
      end
  | None => ["#: (added from POT)"]
  end.

Definition addedBlock (potEntries : gmap string POEntry) (msgid : string)
  : list string :=
  [EmptyString] ++ addedComments potEntries msgid
  ++ formatField "msgid" msgid ++ ["msgstr " +:+ quoted EmptyString].

Definition endWithBlank (lines : list string) : list string :=
  match lines with
  | [] => lines
  | _ => if nonEmpty (List.last lines EmptyString) then lines ++ [EmptyString] else lines
  end.

Definition appendMissing (potEntries : gmap string POEntry)
    (lines missing : list string) : list string :=
  fold_left (λ lines msgid, lines ++ addedBlock potEntries msgid)
            missing (endWithBlank lines).

(** *** Second pass: the keys to translate (lines 491-524) *)

Record needState := mkNeedState {
  nd_currentMsgid : string;
  nd_currentMsgstr : string;
  nd_inMsgid : bool;
  nd_inMsgstr : bool;
  nd_needs : list string
}.

Definition needInit : needState := mkNeedState EmptyString EmptyString false false [].

(** The test of lines 511-515. *)
Definition wantsTranslation (potEntries : gmap string POEntry)
    (msgid msgstr : string) : bool :=
  nonEmpty msgid && isEmpty msgstr &&
  match potEntries !! msgid with
  | Some entry => isEmpty (Msgstr entry)
  | None => false
  end.

Definition needStep (potEntries : gmap string POEntry)
    (st : needState) (line : string) : option needState :=
  let trimmed := TrimSpace line in
  if isMsgid trimmed then
    msgid ← extractString (dropBytes 6 trimmed);
    Some (mkNeedState msgid (nd_currentMsgstr st) true false (nd_needs st))
  else if isMsgstr trimmed then
    msgstr ← extractString (dropBytes 7 trimmed);
    Some (mkNeedState (nd_currentMsgid st) msgstr false true
            (if wantsTranslation potEntries (nd_currentMsgid st) msgstr
             then nd_needs st ++ [nd_currentMsgid st]
             else nd_needs st))
  else if isLiteral trimmed && nd_inMsgid st then
    str ← extractString trimmed;
    Some (mkNeedState (nd_currentMsgid st +:+ str) (nd_currentMsgstr st)
            (nd_inMsgid st) (nd_inMsgstr st) (nd_needs st))
  else if isLiteral trimmed && nd_inMsgstr st then
    str ← extractString trimmed;
    Some (mkNeedState (nd_currentMsgid st) (nd_currentMsgstr st +:+ str)
            (nd_inMsgid st) (nd_inMsgstr st) (nd_needs st))
  else if isEmpty trimmed || isComment trimmed then
    Some (mkNeedState (nd_currentMsgid st) (nd_currentMsgstr st) false false
            (nd_needs st))
  else Some st.

Definition needsTranslation (potEntries : gmap string POEntry)
    (lines : list string) : option (list string) :=
  nd_needs <$> foldM (needStep potEntries) needInit lines.

(** *** The translation loop (lines 551-579) *)

Fixpoint translateLoop (e : env) (src tgt : string) (needs : list string)
    (translations : gmap string string) (translatedCount : nat) (w : world)
  : gmap string string * nat * world :=
  match needs with
  | [] => (translations, translatedCount, w)
  | msgid :: rest =>
      let '(interrupted, w) := poll e w in
      if interrupted then (translations, translatedCount, w)
      else
        let '(answer, w) := translateCall e msgid src tgt w in
        match answer with
        | None => translateLoop e src tgt rest translations translatedCount w
        | Some translated =>
            translateLoop e src tgt rest (<[msgid := translated]> translations)
              (S translatedCount) w
        end
  end.

(** *** Third pass: writing the translations into the lines (lines 587-662) *)

Record patchState := mkPatchState {
  pa_currentMsgid : string;
  pa_inMsgid : bool;
  pa_inMsgstr : bool;
  pa_skipNextMsgstr : bool;
  pa_newLines : list string
}.

Definition patchInit : patchState := mkPatchState EmptyString false false false [].

(** The inner loop of lines 607-623 over the lines after a translated
    [msgid]: up to the next [msgstr], literal lines extend the key and every
    line passed is copied.  [inMsgid] is true throughout. *)
Fixpoint lookAhead (rest : list string) (currentMsgid : string)
    (newLines : list string) : option (string * list string) :=
  match rest with
  | [] => Some (currentMsgid, newLines)
  | next :: rest' =>
      let nextTrimmed := TrimSpace next in
      if isMsgstr nextTrimmed then Some (currentMsgid, newLines)
      else if isLiteral nextTrimmed then
        str ← extractString nextTrimmed;
        lookAhead rest' (currentMsgid +:+ str) (newLines ++ [next])
      else if nonEmpty nextTrimmed && negb (isComment nextTrimmed) then
        Some (currentMsgid, newLines)
      else lookAhead rest' currentMsgid (newLines ++ [next])
  end.

(** One iteration of the outer loop.  [prev] is [lines[i-1]] and [rest] the
    lines after [lines[i]].  The assignment [i = j] of lines 616 and 621
    changes the loop variable of a [range] loop, which is set afresh at the
    next iteration: the outer loop still visits every line. *)
Definition patchStep (translations : gmap string string) (prev : option string)
    (st : patchState) (line : string) (rest : list string) : option patchState :=
  let trimmed := TrimSpace line in
  if isMsgid trimmed then
    msgid ← extractString (dropBytes 6 trimmed);
    let newLines := pa_newLines st ++ [line] in
    match translations !! msgid with
    | Some _ =>
        '(msgid', newLines') ← lookAhead rest msgid newLines;
        Some (mkPatchState msgid' true false true newLines')
    | None =>
        Some (mkPatchState msgid true false (pa_skipNextMsgstr st) newLines)
    end
  else if isMsgstr trimmed then
    if pa_skipNextMsgstr st then
      let translation := default EmptyString (translations !! pa_currentMsgid st) in
      Some (mkPatchState (pa_currentMsgid st) false true false
              (pa_newLines st ++ formatField "msgstr" translation))
    else
      Some (mkPatchState (pa_currentMsgid st) false true false
              (pa_newLines st ++ [line]))
  else if isLiteral trimmed && pa_inMsgid st then
    str ← extractString trimmed;
    Some (mkPatchState (pa_currentMsgid st +:+ str) (pa_inMsgid st) (pa_inMsgstr st)
            (pa_skipNextMsgstr st) (pa_newLines st ++ [line]))
  else
    let dropped :=
      pa_skipNextMsgstr st && isLiteral trimmed &&
      match prev with
      | Some before => Contains before "msgstr"
      | None => false
      end in
    let newLines := if dropped then pa_newLines st else pa_newLines st ++ [line] in
    if isEmpty trimmed || isComment trimmed then
      Some (mkPatchState (pa_currentMsgid st) false false (pa_skipNextMsgstr st) newLines)
    else
      Some (mkPatchState (pa_currentMsgid st) (pa_inMsgid st) (pa_inMsgstr st)
              (pa_skipNextMsgstr st) newLines).

Fixpoint patchLoop (translations : gmap string string) (prev : option string)
    (st : patchState) (lines : list string) : option patchState :=
  match lines with
  | [] => Some st
  | line :: rest =>
      st' ← patchStep translations prev st line rest;
      patchLoop translations (Some line) st' rest
  end.

Definition applyTranslations (translations : gmap string string)
    (lines : list string) : option (list string) :=
  pa_newLines <$> patchLoop translations None patchInit lines.

(** *** The whole function (lines 397-672) *)

Definition translatePoFile (e : env) (visit : list string) (poFile : string)
    (potEntries : gmap string POEntry) (src tgt : string) (w : world)
  : result nat * world :=
  match files w !! poFile with
  | None => (Fail (noSuchFile poFile), w)
  | Some content =>
      let lines := Split content newline in
      match collectExisting lines with
      | None => (Crash, w)
      | Some existing =>
          let missing := missingMsgids visit existing in
          let '(lines, w) :=
            match missing with
            | [] => (lines, w)
            | _ =>
                let newContent := Join (appendMissing potEntries lines missing) newline in
                let w := writeFile poFile newContent w in
                (Split (default EmptyString (files w !! poFile)) newline, w)
            end in
          match needsTranslation potEntries lines with
          | None => (Crash, w)
          | Some [] => (Done 0, w)
          | Some needs =>
              let '(translations, translatedCount, w) :=
                translateLoop e src tgt needs ∅ 0 w in
              if translatedCount =? 0 then (Done 0, w)
              else
                match applyTranslations translations lines with
                | None => (Crash, w)
                | Some newLines =>
                    (Done translatedCount, writeFile poFile (Join newLines newline) w)
                end
          end
      end
  end.

(** ** Full reconstruction: [rewritePoFile] *)

Record oldState := mkOldState {
  ol_existing : gmap string string;
  ol_currentMsgid : string;
  ol_currentMsgstr : string;
  ol_inMsgid : bool;
  ol_inMsgstr : bool;
  ol_headerLines : list string;
  ol_inHeader : bool
}.

Definition oldInit : oldState :=
  mkOldState ∅ EmptyString EmptyString false false [] true.

(** The classification of a line, lines 695-741. *)
Definition oldClassify (st : oldState) (line : string) : option oldState :=
  let trimmed := TrimSpace line in
  let 'mkOldState existing msgid msgstr inMsgid inMsgstr header inHeader := st in
  if isMsgid trimmed then
    if bool_decide (trimmed = "msgid " +:+ quoted EmptyString) && inHeader then
      Some (mkOldState existing EmptyString msgstr true false header inHeader)
    else
      msgid' ← extractString (dropBytes 6 trimmed);
      Some (mkOldState existing msgid' EmptyString true false header false)
  else if isMsgstr trimmed then
    if inHeader && isEmpty msgid then
      Some (mkOldState existing msgid msgstr false true header inHeader)
    else
      msgstr' ← extractString (dropBytes 7 trimmed);
      Some (mkOldState existing msgid msgstr' false true header inHeader)
  else if isLiteral trimmed then
    if inMsgid && negb inHeader then
      str ← extractString trimmed;
      Some (mkOldState existing (msgid +:+ str) msgstr inMsgid inMsgstr header inHeader)
    else if inMsgstr && negb inHeader then
      str ← extractString trimmed;
      Some (mkOldState existing msgid (msgstr +:+ str) inMsgid inMsgstr header inHeader)
    else Some st
  else if isEmpty trimmed then
    let inHeader' := if inHeader && isEmpty msgid then false else inHeader in
    if negb inHeader' && nonEmpty msgid then
      Some (mkOldState (<[msgid := msgstr]> existing) EmptyString EmptyString
              false false header inHeader')
    else
      Some (mkOldState existing msgid msgstr false false header inHeader')
  else if isComment trimmed then
    if inHeader then
      Some (mkOldState existing msgid msgstr inMsgid inMsgstr (header ++ [line]) inHeader)
    else Some st
  else Some st.

(** The collection of header lines, lines 743-752. *)
Definition oldCollect (st : oldState) (line : string) : oldState :=
  let trimmed := TrimSpace line in
  let header := ol_headerLines st in
  if ol_inHeader st
     && (isEmpty (ol_currentMsgid st) || isEmpty trimmed
         || HasPrefix trimmed "msgid" || HasPrefix trimmed "msgstr"
         || isLiteral trimmed)
     && (negb (isComment trimmed)
         || bool_decide (header = [])
         || negb (bool_decide (line = List.last header EmptyString)))
     && (nonEmpty line
         || bool_decide (header = [])
         || nonEmpty (List.last header EmptyString))
  then mkOldState (ol_existing st) (ol_currentMsgid st) (ol_currentMsgstr st)
         (ol_inMsgid st) (ol_inMsgstr st) (header ++ [line]) (ol_inHeader st)
  else st.

Definition oldStep (st : oldState) (line : string) : option oldState :=
  st' ← oldClassify st line;
  Some (oldCollect st' line).

(** The old translations and the header lines of a file, lines 692-758. *)
Definition readOld (lines : list string)
  : option (gmap string string * list string) :=
  st ← foldM oldStep oldInit lines;
  Some (if nonEmpty (ol_currentMsgid st) && negb (ol_inHeader st)
        then <[ol_currentMsgid st := ol_currentMsgstr st]> (ol_existing st)
        else ol_existing st,
        ol_headerLines st).

(** Lines 760-770. *)
Definition rewriteNeeds (visit : list string) (existing : gmap string string)
  : list string :=
  fold_left (λ needs msgid,
               if isEmpty msgid then needs
               else match existing !! msgid with
                    | Some old => if isEmpty old then needs ++ [msgid] else needs
                    | None => needs ++ [msgid]
                    end)
            visit [].

(** The [msgstr] of a rewritten entry, lines 861-867. *)
Definition chosenMsgstr (translations existing : gmap string string)
    (msgid : string) : string :=
  match translations !! msgid with
  | Some trans => trans
  | None => default EmptyString (existing !! msgid)
  end.

(** The lines of one rewritten entry, lines 838-882. *)
Definition rewrittenEntry (potEntries : gmap string POEntry)
    (translations existing : gmap string string) (msgid : string) : list string :=
  [EmptyString]
  ++ match potEntries !! msgid with
     | Some potEntry => Comments potEntry
     | None => []
     end
  ++ formatField "msgid" msgid
  ++ formatField "msgstr" (chosenMsgstr translations existing msgid).

(** Lines 823-883. *)
Definition rewriteLines (visit : list string) (potEntries : gmap string POEntry)
    (translations existing : gmap string string) (headerLines : list string)
  : list string :=
  let start :=
    match headerLines with
    | [] => headerLines
    | _ => if nonEmpty (List.last headerLines EmptyString)
           then headerLines ++ [EmptyString] else headerLines
    end in
  fold_left (λ newLines msgid,
               if isEmpty msgid then newLines
               else newLines ++ rewrittenEntry potEntries translations existing msgid)
            visit start.

(** Lines 891-897.  The count does not depend on the order of the visit, so
    the keys are taken in the order [elements] lists them. *)
Definition removedCount (potEntries : gmap string POEntry)
    (existing : gmap string string) : nat :=
  length (filter (λ msgid, potEntries !! msgid = None ∧ msgid ≠ EmptyString)
                 (elements (dom existing))).

(** [rewritePoFile], lines 676-904.  [visit1] and [visit2] are the orders of
    the two [range potEntries] loops.  The function returns the number of
    translations; the number of removed entries is what it prints, and is
    returned here beside it. *)
Definition rewritePoFile (e : env) (visit1 visit2 : list string) (poFile : string)
    (potEntries : gmap string POEntry) (src tgt : string) (w : world)
  : result (nat * nat) * world :=
  match files w !! poFile with
  | None => (Fail (noSuchFile poFile), w)
  | Some content =>
      match readOld (Split content newline) with
      | None => (Crash, w)
      | Some (existing, headerLines) =>
          let needs := rewriteNeeds visit1 existing in
          let '(translations, translatedCount, w) :=
            translateLoop e src tgt needs ∅ 0 w in
          let newLines := rewriteLines visit2 potEntries translations existing headerLines in
          let w := writeFile poFile (Join newLines newline) w in
          (Done (translatedCount, removedCount potEntries existing), w)
      end
  end.

(** ** Target language: [getTargetLanguage] *)

Definition slash : ascii := ascii_of_nat 47.

Fixpoint dropSlashes (s : string) : string :=
  match s with
  | String c s' => if bool_decide (c = slash) then dropSlashes s' else s
  | EmptyString => s
  end.

Fixpoint upToSlash (s : string) : string :=
  match s with
  | String c s' => if bool_decide (c = slash) then EmptyString else String c (upToSlash s')
  | EmptyString => EmptyString
  end.

(** [filepath.Base] with the separator of Unix. *)
Definition Base (path : string) : string :=
  if isEmpty path then "."
  else
    let last := String.rev (upToSlash (dropSlashes (String.rev path))) in
    if isEmpty last then "/" else last.

(** The first line that yields a language, lines 367-382. *)
Fixpoint firstLanguage (lines : list string) : option string :=
  match lines with
  | [] => None
  | line :: rest =>
      match languageOf line with
      | Some lang => Some lang
      | None => firstLanguage rest
      end
  end.

(** The language in the name of the file, lines 384-392. *)
Definition languageOfName (poFile : string) : option string :=
  let parts := Split (Base poFile) "_" in
  if 2 <=? length parts then
    let lang := TrimSuffix (List.last parts EmptyString) ".po" in
    if nonEmpty lang then Some lang else None
  else None.

(** [getTargetLanguage], lines 359-395.  The error of the scanner is not
    looked at: after an over-long line the function goes on to the name of
    the file. *)
Definition getTargetLanguage (fs : gmap string string) (poFile : string)
  : result string :=
  match fs !! poFile with
  | None => Fail (noSuchFile poFile)
  | Some content =>
      match firstLanguage (scanLines content) with
      | Some lang => Done lang
      | None =>
          match languageOfName poFile with
          | Some lang => Done lang
          | None => Fail "could not determine target language"
          end
      end
  end.

(** ** The rest of the program

    [strings.ToUpper] beyond ASCII, [filepath.Join] and [filepath.Glob] are
    library functions the properties below do not look into; they are the
    variables of this section. *)

Section Program.

Variable ToUpper : string → string.
Variable pathJoin : string → string → string.
Variable Glob : gmap string string → string → list string.

(** The literal of a header field, as the three [fmt.Sprintf] calls of
    lines 966, 972 and 979 (and 918, 931) build it: the name, a colon, the
    value and an escaped line feed, between quotes. *)
Definition headerField (name value : string) : string :=
  quoted (name +:+ ": " +:+ value +:+ bslash +:+ "n").

(** *** Bootstrap: [copyPotToPo] *)

(** The test of lines 984-989 on line [i], whose successor is [next]. *)
Definition leavesHeader (first : bool) (line : string) (next : option string) : bool :=
  negb first && isEmpty (TrimSpace line) &&
  match next with
  | Some after =>
      negb (isLiteral (TrimSpace after)) && nonEmpty (TrimSpace after)
  | None => false
  end.

(** The loop of lines 961-993.  [i] is the index of the line; [now i] is
    the formatted time read while line [i] is copied. *)
Fixpoint copyLoop (targetLang : string) (now : nat → string) (i : nat)
    (inHeader : bool) (newLines : list string) (lines : list string) : list string :=
  match lines with
  | [] => newLines
  | line :: rest =>
      if inHeader && Contains line (dquote +:+ "Language:") then
        copyLoop targetLang now (S i) inHeader
          (newLines ++ [headerField "Language" targetLang]) rest
      else if inHeader && Contains line (dquote +:+ "Language-Team:") then
        copyLoop targetLang now (S i) inHeader
          (newLines ++ [headerField "Language-Team" (ToUpper targetLang)]) rest
      else if inHeader && Contains line (dquote +:+ "PO-Revision-Date:") then
        copyLoop targetLang now (S i) inHeader
          (newLines ++ [headerField "PO-Revision-Date" (now i)]) rest
      else
        let inHeader' :=
          if inHeader && leavesHeader (i =? 0) line (head rest)
          then false else inHeader in
        copyLoop targetLang now (S i) inHeader' (newLines ++ [line]) rest
  end.

(** [copyPotToPo], lines 949-1002. *)
Definition copyPotToPo (now : nat → string) (potFile newPoFile targetLang : string)
    (w : world) : result unit * world :=
  match files w !! potFile with
  | None => (Fail ("failed to read POT file: " +:+ noSuchFile potFile), w)
  | Some content =>
      let newLines := copyLoop targetLang now 0 true [] (Split content newline) in
      (Done (), writeFile newPoFile (Join newLines newline) w)
  end.

(** *** [updatePotLanguage], lines 906-946 *)

Fixpoint setLanguage (language : string) (lines : list string) : option (list string) :=
  match lines with
  | [] => None
  | line :: rest =>
      if Contains line (dquote +:+ "Language:")
      then Some (headerField "Language" language :: rest)
      else cons line <$> setLanguage language rest
  end.

Fixpoint addLanguage (language : string) (lines : list string) : option (list string) :=
  match lines with
  | [] => None
  | line :: rest =>
      if Contains line (dquote +:+ "Content-Type:")
      then Some (line :: headerField "Language" language :: rest)
      else cons line <$> addLanguage language rest
  end.

Definition updatePotLanguage (potFile language : string) (w : world)
  : result unit * world :=
  match files w !! potFile with
  | None => (Fail (noSuchFile potFile), w)
  | Some content =>
      let lines := Split content newline in
      let updated :=
        match setLanguage language lines with
        | Some lines' => Some lines'
        | None => addLanguage language lines
        end in
      match updated with
      | Some lines' => (Done (), writeFile potFile (Join lines' newline) w)
      | None =>
          (Fail "could not find appropriate place to insert Language header", w)
      end
  end.

(** *** [main] *)

Record options := mkOptions {
  rewriteMode : bool;
  sourceLang : string;
  domain : string;
  addLang : string
}.

(** How the process ends: the exit code and, when it ends on an error,
    the message written to standard error. *)
Record ending := mkEnding { exitCode : nat; complaint : option string }.

Definition exitWith (code : nat) : ending := mkEnding code None.
Definition failWith (msg : string) : ending := mkEnding 1 (Some msg).

(** The orders of the [range] loops over the template: [visit n] is the
    order of the [n]th loop the program runs. *)
Definition visits := nat → list string.

(** The branch taken when [--add-lang] is given, lines 116-150. *)
Definition mainAddLang (e : env) (visit : visits) (now : nat → string)
    (opts : options) (directory potFile : string)
    (potEntries : gmap string POEntry) (finalSourceLang : string) (w : world)
  : ending * world :=
  if negb (String.length (addLang opts) =? 2) then
    (failWith "Error: Language code must be 2 letters (e.g., 'es', 'fr', 'de')", w)
  else
    let newPoFile :=
      pathJoin directory (domain opts +:+ "_" +:+ addLang opts +:+ ".po") in
    match files w !! newPoFile with
    | Some _ => (failWith ("Error: PO file '" +:+ newPoFile +:+ "' already exists"), w)
    | None =>
        match copyPotToPo now potFile newPoFile (addLang opts) w with
        | (Done _, w) =>
            match translatePoFile e (visit 0) newPoFile potEntries
                    finalSourceLang (addLang opts) w with
            | (Done _, w) => (exitWith 0, w)
            | (Fail msg, w) => (failWith ("Error translating new PO file: " +:+ msg), w)
            | (Crash, w) => (exitWith 2, w)
            end
        | (Fail msg, w) => (failWith ("Error creating PO file: " +:+ msg), w)
        | (Crash, w) => (exitWith 2, w)
        end
    end.




End Program.

(** ** Sample catalogs *)

Definition msgidLine (key : string) : string := "msgid " +:+ quoted key.
Definition msgstrLine (text : string) : string := "msgstr " +:+ quoted text.
Definition emptyMsgstr : string := msgstrLine EmptyString.

(** The template of [TestParsePotFile]. *)
Definition potSample : string :=
  Join [ "# Test POT file";
         "msgid " +:+ quoted EmptyString;
         "msgstr " +:+ quoted EmptyString;
         quoted ("Project-Id-Version: Test 1.0" +:+ bslash +:+ "n");
         quoted ("Language: en" +:+ bslash +:+ "n");
         quoted ("Content-Type: text/plain; charset=UTF-8" +:+ bslash +:+ "n");
         EmptyString;
         "#: test.py:10";
         "msgid " +:+ quoted "Hello, World!";
         "msgstr " +:+ quoted EmptyString;
         EmptyString;
         "#: test.py:15";
         "msgid " +:+ quoted "Goodbye";
         "msgstr " +:+ quoted EmptyString;
         EmptyString;
         "#: test.py:20";
         "msgid " +:+ quoted "Multi-line";
         quoted " string";
         "msgstr " +:+ quoted EmptyString;
         EmptyString ] newline.

(** A backend that always fails, one that answers in upper case, and a flag
    that is never set. *)
Definition neverSet : nat → bool := λ _, false.
Definition failingBackend : nat → string → string → string → option string :=
  λ _ _ _ _, None.
Definition shoutingBackend : nat → string → string → string → option string :=
  λ _ text _ _, Some (ToUpperASCII text).

(** The entries a template text parses to (none if the parser panics).  It
    is used on the sample texts, which have no line too long for the
    scanner. *)
Definition entriesOf (potText : string) : gmap string POEntry :=
  match parsePotLines (scanLines potText) with
  | Some (entries, _) => entries
  | None => ∅
  end.

(** The keys of a catalog text, in the order of the text. *)
Definition keysInOrder (text : string) : list string :=
  templateOrder (Split text newline).

(** [visit] is an order in which [range m] can hand out the keys of [m]:
    each key once. *)
Definition rangeOrder {V : Type} (m : gmap string V) (visit : list string) : Prop :=
  visit ≡ₚ elements (dom m).

Definition langHeader (lang : string) : list string :=
  [ msgidLine EmptyString; emptyMsgstr;
    quoted ("Language: " +:+ lang +:+ bslash +:+ "n") ].

(** Template [a, b, c]. *)
Definition potABC : string :=
  Join (langHeader "en" ++
        [ EmptyString; msgidLine "a"; emptyMsgstr;
          EmptyString; msgidLine "b"; emptyMsgstr;
          EmptyString; msgidLine "c"; emptyMsgstr; EmptyString ]) newline.

(** Target with the entries [c, a, old], all translated. *)
Definition poCAOld : string :=
  Join (langHeader "es" ++
        [ EmptyString; msgidLine "c"; msgstrLine "C";
          EmptyString; msgidLine "a"; msgstrLine "A";
          EmptyString; msgidLine "old"; msgstrLine "OLD"; EmptyString ]) newline.

(** Target with the entries [b, a], none translated. *)
Definition poBA : string :=
  Join (langHeader "es" ++
        [ EmptyString; msgidLine "b"; emptyMsgstr;
          EmptyString; msgidLine "a"; emptyMsgstr; EmptyString ]) newline.

(** Template [a, b]. *)
Definition potAB : string :=
  Join (langHeader "en" ++
        [ EmptyString; msgidLine "a"; emptyMsgstr;
          EmptyString; msgidLine "b"; emptyMsgstr; EmptyString ]) newline.

(** A template whose one key is a Windows path: on disk the literal is
    [C:\\dir], two backslashes. *)
Definition potPath : string :=
  Join (langHeader "en" ++
        [ EmptyString; msgidLine ("C:" +:+ bslash +:+ bslash +:+ "dir"); emptyMsgstr;
          EmptyString ]) newline.

(** A target with a header and no entry. *)
Definition poBare : string := Join (langHeader "es" ++ [EmptyString]) newline.

(** The join of two path elements used in the examples. *)
Definition joinSlash (dir name : string) : string := dir +:+ "/" +:+ name.

(** A flag that is set from the read numbered [n] on. *)
Definition setFrom (n : nat) : nat → bool := λ i, n <=? i.

Definition fixedTime : nat → string := λ _, "2026-01-01 00:00+0000".

(** ** Notions used to state the properties *)

(** Within a stretch of events, nothing follows a read of the flag that saw
    it set. *)
Definition stopsWhenSet (evs : list event) : Prop :=
  ∀ before after, evs = before ++ EvPoll true :: after → after = [].

Definition isWrite (ev : event) : bool :=
  match ev with EvWrite _ _ => true | _ => false end.

Definition isCall (ev : event) : bool :=
  match ev with EvCall _ => true | _ => false end.



Fixpoint hasByte (c : ascii) (s : string) : bool :=
  match s with
  | EmptyString => false
  | String d s' => bool_decide (d = c) || hasByte c s'
  end.

(** *** The flag [inHeader] of the bootstrap

    [copyPotToPo] clears its flag [inHeader] at line [j] when that line is
    blank, is not the first line, and is followed by a line that is neither
    blank nor a literal; [headerFlagAt lines i] is the value of the flag
    when line [i] is read.  This is the flag of the code, not the header of
    the file: a blank line before the header entry clears it too. *)
Definition endsHeader (lines : list string) (j : nat) : bool :=
  match lines !! j, lines !! S j with
  | Some line, Some after =>
      negb (j =? 0) && isEmpty (TrimSpace line)
      && negb (isLiteral (TrimSpace after)) && nonEmpty (TrimSpace after)
  | _, _ => false
  end.

Definition headerFlagAt (lines : list string) (i : nat) : bool :=
  forallb (λ j, negb (endsHeader lines j)) (seq 0 i).

(** What the clone holds in place of line [i] of the template. *)
Definition copiedLine (ToUpper : string → string) (targetLang : string)
    (now : nat → string) (lines : list string) (i : nat) (line : string) : string :=
  if headerFlagAt lines i then
    if Contains line (dquote +:+ "Language:") then
      dquote +:+ "Language: " +:+ targetLang +:+ bslash +:+ "n" +:+ dquote
    else if Contains line (dquote +:+ "Language-Team:") then
      dquote +:+ "Language-Team: " +:+ ToUpper targetLang +:+ bslash +:+ "n" +:+ dquote
    else if Contains line (dquote +:+ "PO-Revision-Date:") then
      dquote +:+ "PO-Revision-Date: " +:+ now i +:+ bslash +:+ "n" +:+ dquote
    else line
  else line.

(** A template that opens with a comment and a blank line, as a file with
    a licence note does; the header entry comes after them. *)
Definition potLateHeader : string :=
  Join [ "# Translations of the application.";
         EmptyString;
         msgidLine EmptyString;
         emptyMsgstr;
         quoted ("Project-Id-Version: Test 1.0" +:+ bslash +:+ "n");
         quoted ("Language: en" +:+ bslash +:+ "n");
         quoted ("Language-Team: English" +:+ bslash +:+ "n");
         quoted ("PO-Revision-Date: 2024-01-01 12:00+0000" +:+ bslash +:+ "n");
         quoted ("Content-Type: text/plain; charset=UTF-8" +:+ bslash +:+ "n");
         EmptyString;
         "#: test.py:10";
         msgidLine "Hello";
         emptyMsgstr;
         EmptyString ] newline.

(** The template of [TestCopyPotToPo]. *)
Definition potFull : string :=
  Join [ "# Translation Template";
         msgidLine EmptyString;
         emptyMsgstr;
         quoted ("Project-Id-Version: Test 1.0" +:+ bslash +:+ "n");
         quoted ("Language: en" +:+ bslash +:+ "n");
         quoted ("Language-Team: English" +:+ bslash +:+ "n");
         quoted ("PO-Revision-Date: 2024-01-01 12:00+0000" +:+ bslash +:+ "n");
         quoted ("Content-Type: text/plain; charset=UTF-8" +:+ bslash +:+ "n");
         EmptyString;
         "#: test.py:10";
         msgidLine "Hello";
         emptyMsgstr;
         EmptyString;
         "#: about " +:+ quoted "Language: xx";
         msgidLine "World";
         emptyMsgstr;
         EmptyString ] newline.

(** *** Orders *)

(** The key in progress when the second pass of [translatePoFile] reaches
    line [i]: the key that owns a [msgstr] found there. *)
Definition keyAtLine (potEntries : gmap string POEntry) (lines : list string)
    (i : nat) : option string :=
  nd_currentMsgid <$> foldM (needStep potEntries) needInit (take i lines).

(** [keys] are listed in the order of the [msgstr] lines that own them:
    there are line numbers, one per key and increasing, each of a [msgstr]
    line owned by its key. *)
Definition increasing (idx : list nat) : Prop :=
  ∀ a b i j, a < b → idx !! a = Some i → idx !! b = Some j → i < j.

Definition inFileOrder (potEntries : gmap string POEntry) (lines : list string)
    (keys : list string) : Prop :=
  ∃ idx : list nat,
    increasing idx ∧
    Forall2 (λ i key, ∃ line, lines !! i = Some line ∧
                              isMsgstr (TrimSpace line) = true ∧
                              keyAtLine potEntries lines i = Some key)
            idx keys.

(** [keys] are listed in the order of the template: they can be struck
    out of the list of its keys without reordering. *)
Definition inTemplateOrder (potText : string) (keys : list string) : Prop :=
  sublist keys (templateOrder (scanLines potText)).

(** *** The lines of an entry, spelled out *)

Definition lineFeed : ascii := ascii_of_nat 10.

(** The lines that hold [text] after [keyword].  A text without a line
    feed is written on the line of the keyword.  A text with line feeds is
    written below an empty literal, one literal per piece: every piece but
    the last with an escaped line feed at its end, the last piece only if
    it is not empty. *)
Definition keyLinesOf (keyword text : string) : list string :=
  if hasByte lineFeed text then
    let pieces := Split text newline in
    (keyword +:+ " " +:+ dquote +:+ dquote)
    :: ((λ piece, dquote +:+ escapeString piece +:+ bslash +:+ "n" +:+ dquote)
          <$> removelast pieces)
    ++ (if bool_decide (List.last pieces EmptyString = EmptyString) then []
        else [dquote +:+ escapeString (List.last pieces EmptyString) +:+ dquote])
  else [keyword +:+ " " +:+ dquote +:+ escapeString text +:+ dquote].

(** The lines of an entry added from the template: a blank line, the
    comments of the template entry or, when it has none, a comment of the
    program's own, the key, and an empty [msgstr]. *)
Definition addedEntryLines (potEntries : gmap string POEntry) (msgid : string)
  : list string :=
  [EmptyString]
  ++ match potEntries !! msgid with
     | Some (mkPOEntry _ (comment :: comments)) => comment :: comments
     | _ => ["#: (added from POT)"]
     end
  ++ keyLinesOf "msgid" msgid
  ++ ["msgstr " +:+ dquote +:+ dquote].

(** The block of an added entry as the specification words it: a blank
    line, the comments of the template entry, the key, an empty [msgstr]. *)
Definition statedBlock (potEntries : gmap string POEntry) (msgid : string)
  : list string :=
  [EmptyString]
  ++ match potEntries !! msgid with
     | Some entry => Comments entry
     | None => []
     end
  ++ keyLinesOf "msgid" msgid
  ++ ["msgstr " +:+ dquote +:+ dquote].

(** *** The patch *)

(** Every key of the file stands on its [msgid] line, and that line is
    directly followed by the [msgstr] line of the entry. *)
Definition singleLineKeys (lines : list string) : Prop :=
  ∀ i line, lines !! i = Some line → isMsgid (TrimSpace line) = true →
    ∃ next, lines !! S i = Some next ∧ isMsgstr (TrimSpace next) = true.

(** No [msgid] line stops after the quote that opens its key. *)
Definition keysReadable (lines : list string) : Prop :=
  ∀ line, line ∈ lines → isMsgid (TrimSpace line) = true →
    TrimSpace (dropBytes 6 (TrimSpace line)) ≠ dquote.

(** The same as [singleLineKeys], along the lines.  [prev] is the line
    before [lines]. *)
Definition isMsgidLine (prev : option string) : bool :=
  match prev with
  | Some line => isMsgid (TrimSpace line)
  | None => false
  end.

Fixpoint pairedFrom (prev : option string) (lines : list string) : Prop :=
  match lines with
  | [] => isMsgidLine prev = false
  | line :: rest =>
      (isMsgidLine prev = true → isMsgstr (TrimSpace line) = true)
      ∧ pairedFrom (Some line) rest
  end.

(** The translation of the key read on a [msgid] line, when the map of
    translations has one. *)
Definition translatedKey (translations : gmap string string) (line : string)
  : option string :=
  let trimmed := TrimSpace line in
  if isMsgid trimmed
  then extractString (dropBytes 6 trimmed) ≫= λ msgid, translations !! msgid
  else None.

(** The lines that stand for [line] in the patched file: the translation,
    for a [msgstr] line directly after a [msgid] line whose key has one;
    the line itself otherwise. *)
Definition patchedLine (translations : gmap string string) (prev : option string)
    (line : string) : list string :=
  if isMsgstr (TrimSpace line) then
    match prev ≫= translatedKey translations with
    | Some translation => keyLinesOf "msgstr" translation
    | None => [line]
    end
  else [line].

Fixpoint patched (translations : gmap string string) (prev : option string)
    (lines : list string) : list string :=
  match lines with
  | [] => []
  | line :: rest =>
      patchedLine translations prev line ++ patched translations (Some line) rest
  end.

(** What the loop knows about the line before: [inMsgid] is set exactly
    when that line is a [msgid] line; [skipNextMsgstr] is set exactly when
    the key of that line has a translation, and the key in progress is then
    that key. *)
Definition patchInv (translations : gmap string string) (prev : option string)
    (st : patchState) : Prop :=
  pa_inMsgid st = isMsgidLine prev ∧
  match prev ≫= translatedKey translations with
  | Some translation =>
      pa_skipNextMsgstr st = true ∧
      translations !! pa_currentMsgid st = Some translation
  | None => pa_skipNextMsgstr st = false
  end.

(** *** The language of a target *)

(** [line] carries the language [lang]: it holds a quote followed by
    [Language:], and the text between its first and its second colon,
    without the white space around it, without a quote in front of it and
    without an escaped line feed and a quote, or a quote, behind it, is
    [lang], which is not empty. *)
Definition carriesLanguage (line lang : string) : Prop :=
  Contains line (dquote +:+ "Language:") = true ∧
  lang ≠ EmptyString ∧
  ∃ before field rest,
    Split line ":" = before :: field :: rest ∧
    lang = TrimSuffix (TrimSuffix (TrimPrefix (TrimSpace field) dquote)
                         (bslash +:+ "n" +:+ dquote)) dquote.

Fixpoint repeatByte (n : nat) (c : ascii) : string :=
  match n with
  | 0 => EmptyString
  | S n' => String c (repeatByte n' c)
  end.

(** A target whose first line has 64 KiB and whose second line is a
    [Language:] field. *)
Definition poLongLine : string :=
  Join [ repeatByte (N.to_nat maxScanTokenSize) (ascii_of_nat 120);
         quoted ("Language: de" +:+ bslash +:+ "n");
         EmptyString ] newline.

(** *** Texts byte by byte *)

(** The text obtained by writing [f c] for each byte [c] of [s]. *)
Fixpoint mapBytes (f : ascii → string) (s : string) : string :=
  match s with
  | EmptyString => EmptyString
  | String c s' => f c +:+ mapBytes f s'
  end.

Definition oneByte (c : ascii) : string := String c EmptyString.

Definition backslash : ascii := ascii_of_nat 92.

(** A piece of escaped text: one byte other than a backslash, or a
    backslash and one byte other than a backslash. *)
Definition escapedPiece (piece : string) : Prop :=
  (∃ d, piece = oneByte d ∧ d ≠ backslash)
  ∨ (∃ z, piece = String backslash (oneByte z) ∧ z ≠ backslash).

(** The bytes [escapeString] writes for a byte other than a backslash. *)
Definition escapePiece (c : ascii) : string :=
  if bool_decide (c = ascii_of_nat 34) then String backslash (oneByte (ascii_of_nat 34))
  else if bool_decide (c = ascii_of_nat 10) then String backslash (oneByte (ascii_of_nat 110))
  else if bool_decide (c = ascii_of_nat 9) then String backslash (oneByte (ascii_of_nat 116))
  else oneByte c.

(** The pieces after a backslash pair [\x] has been replaced by [y]. *)
Definition unescapeWith (pieces : ascii → string) (x y : ascii) : ascii → string :=
  λ c, if bool_decide (pieces c = String backslash (oneByte x))
       then oneByte y else pieces c.

(** The template and the target of [TestCommentsAreCopiedFromPOT]. *)
Definition potCommented : string :=
  Join (langHeader "en" ++
        [ EmptyString; "#: source.py:10"; msgidLine "First"; emptyMsgstr;
          EmptyString; "#: source.py:20"; "#: source.py:30"; msgidLine "Second"; emptyMsgstr;
          EmptyString; "#. Translator comment"; "#: source.py:40"; msgidLine "Third";
          emptyMsgstr; EmptyString ]) newline.

Definition poFirstOnly : string :=
  Join (langHeader "es" ++
        [ EmptyString; "#: source.py:10"; msgidLine "First"; msgstrLine "Primero";
          EmptyString ]) newline.

(** ** Notions used for the further properties *)

(** The bytes [escapeString] writes for any byte. *)
Definition escapeAny (c : ascii) : string :=
  if bool_decide (c = backslash) then String backslash (oneByte backslash)
  else escapePiece c.

(** A line holds no line feed. *)
Definition oneLine (line : string) : Prop := hasByte lineFeed line = false.

(** The comments of every template entry are single lines, as those read
    from a file are. *)
Definition commentsOneLine (potEntries : gmap string POEntry) : Prop :=
  map_Forall (λ _ entry, Forall oneLine (Comments entry)) potEntries.

(** The comments of every template entry are comment lines, as those that
    [parsePotFile] collects are: single lines that begin, after white
    space, with [#]. *)
Definition commentsAreComments (potEntries : gmap string POEntry) : Prop :=
  map_Forall (λ _ entry,
                Forall (λ comment, oneLine comment ∧ isComment (TrimSpace comment) = true)
                       (Comments entry)) potEntries.

(** What the parser holds as comments are lines it has read that begin,
    after white space, with [#]. *)
Definition commentsSoFar (st : potState) : Prop :=
  commentsAreComments (pot_entries st)
  ∧ Forall (λ comment, oneLine comment ∧ isComment (TrimSpace comment) = true)
      (pot_currentComments st)
  ∧ Forall (λ comment, oneLine comment ∧ isComment (TrimSpace comment) = true)
      (pot_pendingComments st).
(** * Properties *)

(** ** The tests of [main_test.go], replayed on the model *)

Example extract_simple : extractString (quoted "Hello, World!") = Some "Hello, World!".
Proof. vm_compute. reflexivity. Qed.

Example extract_newline :
  extractString (quoted ("Hello" +:+ bslash +:+ "nWorld"))
  = Some ("Hello" +:+ newline +:+ "World").
Proof. vm_compute. reflexivity. Qed.

Example extract_escaped_quote :
  extractString (quoted ("Hello " +:+ bslash +:+ dquote +:+ "World" +:+ bslash +:+ dquote))
  = Some ("Hello " +:+ dquote +:+ "World" +:+ dquote).
Proof. vm_compute. reflexivity. Qed.

Example extract_unquoted : extractString "Hello" = Some "Hello".
Proof. vm_compute. reflexivity. Qed.

Example extract_empty : extractString (quoted EmptyString) = Some EmptyString.
Proof. vm_compute. reflexivity. Qed.

Example extract_lone_quote : extractString dquote = None.
Proof. vm_compute. reflexivity. Qed.

Example escape_backslash :
  escapeString ("C:" +:+ bslash +:+ "path") = "C:" +:+ bslash +:+ bslash +:+ "path".
Proof. vm_compute. reflexivity. Qed.

Example trim_unicode :
  TrimSpace (bytes [32; 194; 160; 9] +:+ "a b" +:+ bytes [226; 128; 137; 13])  = "a b".
Proof. vm_compute. reflexivity. Qed.

Example split_colon : Split "a:b::c" ":" = ["a"; "b"; EmptyString; "c"].
Proof. vm_compute. reflexivity. Qed.

Example split_none : Split "abc" ":" = ["abc"].
Proof. vm_compute. reflexivity. Qed.

Example replace_overlap : ReplaceAll "aaa" "aa" "b" = "ba".
Proof. vm_compute. reflexivity. Qed.

Example parse_sample :
  match parsePotFile {[ "test.pot" := potSample ]} "test.pot" with
  | Done (entries, lang) =>
      lang = "en" ∧ size entries = 3 ∧
      entries !! "Hello, World!" = Some (mkPOEntry EmptyString ["#: test.py:10"]) ∧
      entries !! "Goodbye" = Some (mkPOEntry EmptyString ["#: test.py:15"]) ∧
      entries !! "Multi-line string" = Some (mkPOEntry EmptyString ["#: test.py:20"])
  | _ => False
  end.
Proof. vm_compute. repeat split; reflexivity. Qed.

Example order_sample :
  templateOrder (scanLines potSample) = ["Hello, World!"; "Goodbye"; "Multi-line string"].
Proof. vm_compute. reflexivity. Qed.

(** [TestEscapeString], the case of a string with backslashes. *)
Example escape_path :
  escapeString ("C:" +:+ bslash +:+ "path" +:+ bslash +:+ "to")
  = "C:" +:+ bslash +:+ bslash +:+ "path" +:+ bslash +:+ bslash +:+ "to".
Proof. vm_compute. reflexivity. Qed.

(** [TestGetTargetLanguage]. *)
Example target_from_metadata :
  getTargetLanguage {[ "test_es.po" := Join (langHeader "es") newline ]} "test_es.po"
  = Done "es".
Proof. vm_compute. reflexivity. Qed.

Example target_from_name :
  getTargetLanguage {[ "dir/default_de.po" := Join [msgidLine "Hello"; emptyMsgstr] newline ]}
    "dir/default_de.po" = Done "de".
Proof. vm_compute. reflexivity. Qed.

Example target_unknown :
  getTargetLanguage {[ "test.po" := Join [msgidLine "Hello"; emptyMsgstr] newline ]} "test.po"
  = Fail "could not determine target language".
Proof. vm_compute. reflexivity. Qed.

(** [TestCommentsAreCopiedFromPOT], with a backend that fails: the two
    missing entries are added with the comments of the template. *)
Example comments_copied :
  files (translatePoFile (mkEnv neverSet failingBackend) ["First"; "Second"; "Third"]
           "po" (entriesOf potCommented) "en" "es"
           (newWorld {[ "po" := poFirstOnly ]})).2 !! "po"
  = Some (Join (langHeader "es" ++
                [ EmptyString; "#: source.py:10"; msgidLine "First"; msgstrLine "Primero";
                  EmptyString;
                  EmptyString; "#: source.py:20"; "#: source.py:30"; msgidLine "Second";
                  emptyMsgstr;
                  EmptyString; "#. Translator comment"; "#: source.py:40";
                  msgidLine "Third"; emptyMsgstr ]) newline).
Proof. vm_compute. reflexivity. Qed.

(** ** Strings *)

Lemma prefix_empty s : String.prefix EmptyString s = true.
Proof. by destruct s. Qed.

Lemma prefix_byte c d s :
  String.prefix (String c EmptyString) (String d s) = bool_decide (d = c).
Proof.
  simpl. destruct (ascii_dec c d) as [->|Hne].
  - rewrite prefix_empty. by rewrite bool_decide_eq_true_2.
  - rewrite bool_decide_eq_false_2; [done|]. congruence.
Qed.

Lemma hasByte_app c s1 s2 : hasByte c (s1 +:+ s2) = hasByte c s1 || hasByte c s2.
Proof.
  induction s1 as [|d s1 IH]; [done|].
  change (String d s1 +:+ s2) with (String d (s1 +:+ s2)).
  simpl. rewrite IH. by rewrite orb_assoc.
Qed.

Lemma hasByte_rev_app c s1 s2 :
  hasByte c (String.rev_app s1 s2) = hasByte c s1 || hasByte c s2.
Proof.
  revert s2. induction s1 as [|d s1 IH]; intros s2; simpl; [done|].
  rewrite IH. simpl. destruct (bool_decide (d = c)), (hasByte c s1); done.
Qed.

Lemma hasByte_rev c s : hasByte c (String.rev s) = hasByte c s.
Proof. unfold String.rev. rewrite hasByte_rev_app. simpl. by rewrite orb_false_r. Qed.

Lemma prefix_split p s :
  String.prefix p s = true → s = p +:+ dropBytes (String.length p) s.
Proof.
  revert s. induction p as [|a p IH]; intros s Hp.
  - by destruct s.
  - destruct s as [|b s]; [done|]. simpl in Hp.
    destruct (ascii_dec a b) as [->|]; [|done].
    change (String b p +:+ dropBytes (String.length (String b p)) (String b s))
      with (String b (p +:+ dropBytes (String.length p) s)).
    f_equal. by apply IH.
Qed.

Lemma stripOne_hasByte c seqs s s' :
  Forall (λ q, hasByte c q = false) seqs →
  stripOne seqs s = Some s' → hasByte c s = hasByte c s'.
Proof.
  induction 1 as [|q seqs Hq _ IH]; simpl; [done|].
  destruct (String.prefix q s) eqn:Hp; [|done].
  intros [= <-]. rewrite (prefix_split q s Hp) at 1.
  by rewrite hasByte_app, Hq.
Qed.

Lemma trimLeft_go_hasByte c seqs fuel s :
  Forall (λ q, hasByte c q = false) seqs →
  hasByte c (trimLeft_go seqs fuel s) = hasByte c s.
Proof.
  intros Hseqs. revert s. induction fuel as [|fuel IH]; intros s; simpl; [done|].
  destruct (stripOne seqs s) as [s'|] eqn:Hs; [|done].
  rewrite IH. symmetry. by eapply stripOne_hasByte.
Qed.

(** Trimming removes no quote. *)
Lemma TrimSpace_quote s : hasByte (ascii_of_nat 34) (TrimSpace s) = hasByte (ascii_of_nat 34) s.
Proof.
  unfold TrimSpace, trimRight, trimLeft.
  rewrite hasByte_rev, trimLeft_go_hasByte, hasByte_rev, trimLeft_go_hasByte;
    [done|..].
  - unfold spaceSeqs. repeat constructor.
  - apply Forall_fmap. unfold spaceSeqs. repeat constructor.
Qed.

Lemma Contains_hasByte c t s : Contains s (String c t) = true → hasByte c s = true.
Proof.
  induction s as [|d s IH]; simpl; [done|].
  destruct (ascii_dec c d) as [->|Hne].
  - intros _. by rewrite bool_decide_eq_true_2.
  - simpl. intros H. rewrite IH by done. by rewrite orb_true_r.
Qed.

(** A line that holds a quote is not blank. *)
Lemma quoted_line_not_blank line t :
  Contains line (dquote +:+ t) = true → isEmpty (TrimSpace line) = false.
Proof.
  intros H. apply Contains_hasByte in H. rewrite <- TrimSpace_quote in H.
  by destruct (TrimSpace line).
Qed.

Lemma append_cons c s1 s2 : String c s1 +:+ s2 = String c (s1 +:+ s2).
Proof. reflexivity. Qed.

Lemma append_nil_r s : s +:+ EmptyString = s.
Proof. induction s as [|c s IH]; [done|]. by rewrite append_cons, IH. Qed.

Lemma append_assoc s1 s2 s3 : (s1 +:+ s2) +:+ s3 = s1 +:+ s2 +:+ s3.
Proof. induction s1 as [|c s1 IH]; [done|]. by rewrite !append_cons, IH. Qed.

Lemma rev_app_append s1 s2 acc :
  String.rev_app (s1 +:+ s2) acc = String.rev_app s2 (String.rev_app s1 acc).
Proof.
  revert acc. induction s1 as [|c s1 IH]; intros acc; [done|].
  rewrite append_cons. cbn [String.rev_app]. apply IH.
Qed.

Lemma rev_app_rev_app s1 s2 acc :
  String.rev_app (String.rev_app s1 s2) acc = String.rev_app s2 (s1 +:+ acc).
Proof.
  revert s2. induction s1 as [|c s1 IH]; intros s2; [done|].
  cbn [String.rev_app]. by rewrite IH.
Qed.

Lemma rev_involutive s : String.rev (String.rev s) = s.
Proof.
  unfold String.rev. rewrite rev_app_rev_app. cbn [String.rev_app]. apply append_nil_r.
Qed.

Lemma takeBytes_append s1 s2 : takeBytes (String.length s1) (s1 +:+ s2) = s1.
Proof.
  induction s1 as [|c s1 IH]; [by destruct s2|].
  rewrite append_cons. cbn [String.length takeBytes]. by rewrite IH.
Qed.

Lemma length_append s1 s2 :
  String.length (s1 +:+ s2) = String.length s1 + String.length s2.
Proof.
  induction s1 as [|c s1 IH]; [done|]. rewrite append_cons. cbn [String.length].
  by rewrite IH.
Qed.

Lemma trimLeft_go_kept seqs fuel s : stripOne seqs s = None → trimLeft_go seqs fuel s = s.
Proof. intros H. destruct fuel; [done|]. simpl. by rewrite H. Qed.

(** Trimming leaves a quoted literal as it is. *)
Lemma TrimSpace_quoted s : TrimSpace (quoted s) = quoted s.
Proof.
  unfold TrimSpace, trimRight, trimLeft.
  assert (∀ t, stripOne spaceSeqs (String (ascii_of_nat 34) t) = None) as Hl
    by (intros t; reflexivity).
  assert (∀ t, stripOne (String.rev <$> spaceSeqs) (String (ascii_of_nat 34) t) = None) as Hr
    by (intros t; reflexivity).
  change (quoted s) with (String (ascii_of_nat 34) (s +:+ dquote)).
  rewrite (trimLeft_go_kept _ _ _ (Hl _)).
  assert (String.rev (String (ascii_of_nat 34) (s +:+ dquote))
          = String (ascii_of_nat 34) (String.rev_app s dquote)) as Hrev.
  { unfold String.rev. cbn [String.rev_app]. by rewrite rev_app_append. }
  rewrite Hrev, (trimLeft_go_kept _ _ _ (Hr _)), <- Hrev.
  apply rev_involutive.
Qed.

(** Unquoting a quoted literal. *)
Lemma unquote_quoted s :
  (let t := TrimSpace (quoted s) in
   if HasPrefix t dquote && HasSuffix t dquote
   then slice t 1 (String.length t - 1) else Some t) = Some s.
Proof.
  cbv zeta. rewrite TrimSpace_quoted.
  change (quoted s) with (String (ascii_of_nat 34) (s +:+ dquote)).
  assert (HasPrefix (String (ascii_of_nat 34) (s +:+ dquote)) dquote = true) as ->.
  { unfold HasPrefix, dquote, byte. by rewrite prefix_byte, bool_decide_eq_true_2. }
  assert (HasSuffix (String (ascii_of_nat 34) (s +:+ dquote)) dquote = true) as ->.
  { unfold HasSuffix, String.rev. cbn [String.rev_app]. rewrite rev_app_append.
    unfold dquote, byte. cbn [String.rev_app].
    by rewrite prefix_byte, bool_decide_eq_true_2. }
  unfold slice. cbn [String.length andb]. rewrite length_append.
  change (String.length dquote) with 1.
  replace (S (String.length s + 1) - 1) with (S (String.length s)) by lia.
  rewrite (proj2 (Nat.leb_le 1 _)) by lia.
  rewrite (proj2 (Nat.leb_le _ _)) by lia.
  cbn [andb dropBytes]. replace (S (String.length s) - 1) with (String.length s) by lia.
  by rewrite takeBytes_append.
Qed.

(** ** The escaper *)

(** C1 (the code departs from the claim).  Decoding the encoding of a
    text must return the text.  [escapeString] doubles a backslash and
    [extractString] has no step that halves it again: the text made of one
    backslash comes back as two. *)
Theorem C1_backslash_not_restored :
  extractString (quoted (escapeString bslash)) = Some (bslash +:+ bslash) ∧
  extractString (quoted (escapeString bslash)) ≠ Some bslash.
Proof. split; [vm_compute; reflexivity | vm_compute; discriminate]. Qed.

(** The same gap lets an escaped backslash pair with the letter after it:
    the two bytes backslash, [n] come back as a backslash and a line feed. *)
Example backslash_n_misread :
  extractString (quoted (escapeString (bslash +:+ "n"))) = Some (bslash +:+ newline).
Proof. vm_compute. reflexivity. Qed.

Lemma mapBytes_append f s1 s2 : mapBytes f (s1 +:+ s2) = mapBytes f s1 +:+ mapBytes f s2.
Proof.
  induction s1 as [|c s1 IH]; [done|].
  change (String c s1 +:+ s2) with (String c (s1 +:+ s2)).
  cbn [mapBytes]. by rewrite IH, append_assoc.
Qed.

Lemma mapBytes_ext f g s :
  (∀ c, hasByte c s = true → f c = g c) → mapBytes f s = mapBytes g s.
Proof.
  induction s as [|c s IH]; intros H; [done|]. cbn [mapBytes].
  rewrite (H c) by (simpl; by rewrite bool_decide_eq_true_2).
  rewrite IH; [done|]. intros d Hd. apply H. simpl. by rewrite Hd, orb_true_r.
Qed.

Lemma mapBytes_oneByte s : mapBytes oneByte s = s.
Proof. induction s as [|c s IH]; [done|]. cbn [mapBytes]. by rewrite IH. Qed.

Lemma mapBytes_compose f g s :
  mapBytes g (mapBytes f s) = mapBytes (λ c, mapBytes g (f c)) s.
Proof.
  induction s as [|c s IH]; [done|]. cbn [mapBytes]. by rewrite mapBytes_append, IH.
Qed.

(** Replacing one byte throughout. *)
Lemma ReplaceAll_byte s c new :
  ReplaceAll s (oneByte c) new
  = mapBytes (λ d, if bool_decide (d = c) then new else oneByte d) s.
Proof.
  unfold ReplaceAll, oneByte. induction s as [|d s IH]; [done|].
  cbn [ReplaceAll_go mapBytes]. rewrite prefix_byte.
  destruct (bool_decide (d = c)); cbn [String.length Nat.sub]; by rewrite IH.
Qed.

(** Replacing a backslash pair by one byte, in a text made of escaped
    pieces. *)
Lemma ReplaceAll_pair (pieces : ascii → string) s x y :
  (∀ c, hasByte c s = true → escapedPiece (pieces c)) →
  ReplaceAll (mapBytes pieces s) (String backslash (oneByte x)) (oneByte y)
  = mapBytes (λ c, if bool_decide (pieces c = String backslash (oneByte x))
                   then oneByte y else pieces c) s.
Proof.
  unfold ReplaceAll. induction s as [|c s IH]; intros Hpieces; [done|].
  cbn [mapBytes].
  assert (ReplaceAll_go (String backslash (oneByte x)) (oneByte y) 0 (mapBytes pieces s)
          = mapBytes (λ c, if bool_decide (pieces c = String backslash (oneByte x))
                           then oneByte y else pieces c) s) as Hrest.
  { apply IH. intros d Hd. apply Hpieces. simpl. by rewrite Hd, orb_true_r. }
  destruct (Hpieces c) as [(d & -> & Hd)|(z & -> & Hz)].
  { simpl. by rewrite bool_decide_eq_true_2. }
  - rewrite bool_decide_eq_false_2 by done.
    change (oneByte d +:+ mapBytes pieces s) with (String d (mapBytes pieces s)).
    cbn [ReplaceAll_go String.prefix oneByte].
    destruct (ascii_dec backslash d) as [<-|_]; [done|].
    by rewrite Hrest.
  - change (String backslash (oneByte z) +:+ mapBytes pieces s)
      with (String backslash (String z (mapBytes pieces s))).
    cbn [ReplaceAll_go String.prefix oneByte].
    destruct (ascii_dec backslash backslash) as [_|?]; [|done].
    destruct (ascii_dec x z) as [->|Hxz].
    + rewrite prefix_empty, bool_decide_eq_true_2 by done.
      cbn [String.length Nat.sub ReplaceAll_go oneByte]. by rewrite Hrest.
    + rewrite bool_decide_eq_false_2 by (unfold oneByte; congruence).
      cbn [ReplaceAll_go String.prefix].
      destruct (ascii_dec backslash z) as [<-|_]; [done|].
      by rewrite Hrest.
Qed.

Lemma escapeString_pieces s :
  hasByte backslash s = false → escapeString s = mapBytes escapePiece s.
Proof.
  intros Hs. unfold escapeString.
  change bslash with (oneByte backslash).
  change dquote with (oneByte (ascii_of_nat 34)).
  change newline with (oneByte (ascii_of_nat 10)).
  change tab with (oneByte (ascii_of_nat 9)).
  rewrite !ReplaceAll_byte, !mapBytes_compose.
  apply mapBytes_ext. intros c Hc.
  assert (c ≠ backslash) as Hne by (intros ->; congruence).
  unfold escapePiece.
  rewrite (bool_decide_eq_false_2 (c = backslash)) by done.
  destruct (decide (c = ascii_of_nat 34)) as [->|H34]; [reflexivity|].
  destruct (decide (c = ascii_of_nat 10)) as [->|H10]; [reflexivity|].
  destruct (decide (c = ascii_of_nat 9)) as [->|H9]; [reflexivity|].
  cbn [mapBytes oneByte]. rewrite !bool_decide_eq_false_2 by done.
  cbn [mapBytes oneByte String.append]. rewrite !bool_decide_eq_false_2 by done.
  cbn [mapBytes oneByte String.append]. rewrite !bool_decide_eq_false_2 by done.
  reflexivity.
Qed.

Ltac solve_piece :=
  first [ left; eexists; split; [vm_compute; reflexivity | discriminate]
        | right; eexists; split; [vm_compute; reflexivity | discriminate] ].

(** The three replacements of [extractString], piece by piece. *)
Lemma unescape_pieces c :
  c ≠ backslash →
  let p1 := unescapeWith escapePiece (ascii_of_nat 110) (ascii_of_nat 10) in
  let p2 := unescapeWith p1 (ascii_of_nat 116) (ascii_of_nat 9) in
  let p3 := unescapeWith p2 (ascii_of_nat 34) (ascii_of_nat 34) in
  escapedPiece (escapePiece c) ∧ escapedPiece (p1 c) ∧ escapedPiece (p2 c)
  ∧ p3 c = oneByte c.
Proof.
  intros Hne p1 p2 p3.
  destruct (decide (c = ascii_of_nat 34)) as [->|H34];
    [repeat split; first [solve_piece | vm_compute; reflexivity]|].
  destruct (decide (c = ascii_of_nat 10)) as [->|H10];
    [repeat split; first [solve_piece | vm_compute; reflexivity]|].
  destruct (decide (c = ascii_of_nat 9)) as [->|H9];
    [repeat split; first [solve_piece | vm_compute; reflexivity]|].
  assert (escapePiece c = oneByte c) as H0.
  { unfold escapePiece. by rewrite !bool_decide_eq_false_2 by done. }
  assert (p1 c = oneByte c) as H1.
  { unfold p1, unescapeWith. rewrite H0. by rewrite bool_decide_eq_false_2 by done. }
  assert (p2 c = oneByte c) as H2.
  { unfold p2, unescapeWith. rewrite H1. by rewrite bool_decide_eq_false_2 by done. }
  assert (p3 c = oneByte c) as H3.
  { unfold p3, unescapeWith. rewrite H2. by rewrite bool_decide_eq_false_2 by done. }
  rewrite H0, H1, H2, H3. repeat split; left; by exists c.
Qed.

Lemma round_trip_plain s :
  hasByte backslash s = false →
  extractString (quoted (escapeString s)) = Some s.
Proof.
  intros Hs. rewrite (escapeString_pieces s Hs).
  unfold extractString.
  pose proof (unquote_quoted (mapBytes escapePiece s)) as Hq. cbv zeta in Hq.
  rewrite Hq. cbn [mbind option_bind]. f_equal.
  assert (∀ c, hasByte c s = true → c ≠ backslash) as Hne
    by (intros c Hc ->; congruence).
  change (bslash +:+ "n") with (String backslash (oneByte (ascii_of_nat 110))).
  change (bslash +:+ "t") with (String backslash (oneByte (ascii_of_nat 116))).
  change (bslash +:+ dquote) with (String backslash (oneByte (ascii_of_nat 34))).
  change newline with (oneByte (ascii_of_nat 10)).
  change tab with (oneByte (ascii_of_nat 9)).
  change dquote with (oneByte (ascii_of_nat 34)).
  rewrite (ReplaceAll_pair escapePiece)
    by (intros c Hc; apply (unescape_pieces c (Hne c Hc))).
  rewrite (ReplaceAll_pair (unescapeWith escapePiece (ascii_of_nat 110) (ascii_of_nat 10)))
    by (intros c Hc; apply (unescape_pieces c (Hne c Hc))).
  rewrite (ReplaceAll_pair
             (unescapeWith (unescapeWith escapePiece (ascii_of_nat 110) (ascii_of_nat 10))
                (ascii_of_nat 116) (ascii_of_nat 9)))
    by (intros c Hc; apply (unescape_pieces c (Hne c Hc))).
  rewrite <- (mapBytes_oneByte s) at 2.
  apply mapBytes_ext. intros c Hc.
  apply (unescape_pieces c (Hne c Hc)).
Qed.

(** X1. For every text without a backslash, decoding the encoding returns the
    text: the gap of C1 is the backslash and nothing else. *)
Theorem round_trip_without_backslash s :
  hasByte backslash s = false →
  extractString (quoted (escapeString s)) = Some s.
Proof. apply round_trip_plain. Qed.

Lemma round_trip_witness :
  extractString (quoted (escapeString ("say " +:+ dquote +:+ "hi" +:+ dquote +:+ tab +:+ newline)))
  = Some ("say " +:+ dquote +:+ "hi" +:+ dquote +:+ tab +:+ newline).
Proof.
  apply (round_trip_without_backslash
           ("say " +:+ dquote +:+ "hi" +:+ dquote +:+ tab +:+ newline)).
  reflexivity.
Defined.

(** ** Target language *)

Lemma Split_go_not_nil sep skip cur s : Split_go sep skip cur s ≠ [].
Proof.
  revert skip cur. induction s as [|c s IH]; intros skip cur; cbn [Split_go]; [done|].
  destruct skip; [|apply IH]. destruct (String.prefix sep (String c s)); [done|apply IH].
Qed.






(** The field the program reads off a line is the language the line
    carries. *)
Lemma languageOf_carries line lang :
  languageOf line = Some lang ↔ carriesLanguage line lang.
Proof.
  unfold languageOf, carriesLanguage.
  destruct (Contains line (dquote +:+ "Language:")); [|split; [done|by intros [? _]]].
  destruct (Split line ":") as [|before [|field rest]].
  - split; [done|]. intros (_ & _ & ? & ? & ? & ? & _). done.
  - split; [done|]. intros (_ & _ & ? & ? & ? & ? & _). done.
  - cbv zeta.
    destruct (TrimSuffix (TrimSuffix (TrimPrefix (TrimSpace field) dquote)
                            (bslash +:+ "n" +:+ dquote)) dquote) as [|c lang'] eqn:Hlang;
      cbn [nonEmpty isEmpty negb].
    + split; [done|]. intros (_ & Hne & ? & ? & ? & [= <- <- <-] & ->). by rewrite Hlang in Hne.
    + split.
      * intros [= <-]. split; [done|]. split; [done|].
        exists before, field, rest. by rewrite Hlang.
      * intros (_ & _ & ? & ? & ? & [= <- <- <-] & ->). by rewrite Hlang.
Qed.

(** When every line fits the buffer of the scanner, the scanner yields
    every line of the file. *)
Lemma scanParts_fit parts :
  Forall (λ raw, (N.of_nat (String.length raw) < maxScanTokenSize)%N) parts →
  scanParts parts = (dropCR <$> parts, false).
Proof.
  induction 1 as [|raw parts Hraw _ IH]; [done|].
  cbn [scanParts]. unfold fitsScanner.
  apply N.ltb_lt in Hraw. rewrite Hraw, IH. done.
Qed.


Lemma Forall_removelast {A} (P : A → Prop) (l : list A) :
  Forall P l → Forall P (removelast l).
Proof.
  induction 1 as [|a l Ha Hl IH]; [constructor|].
  destruct l; [constructor|]. cbn [removelast]. by constructor.
Qed.





(** The same file under a name that tells the language: the name is
    believed, whatever the field in the file says. *)
Example long_line_hides_language :
  getTargetLanguage {[ "messages_fr.po" := poLongLine ]} "messages_fr.po" = Done "fr".
Proof. vm_compute. reflexivity. Qed.

(** [parsePotFile] does look at the error of the scanner: a template with
    such a line is refused. *)
Example long_line_in_template :
  parsePotFile {[ "default.pot" := poLongLine ]} "default.pot"
  = Fail "bufio.Scanner: token too long".
Proof. vm_compute. reflexivity. Qed.

(** ** The translation loop *)

Lemma translateLoop_trace e src tgt needs translations n w :
  ∃ evs,
    trace (translateLoop e src tgt needs translations n w).2 = trace w ++ evs ∧
    files (translateLoop e src tgt needs translations n w).2 = files w ∧
    stopsWhenSet evs ∧
    Forall (λ ev, isWrite ev = false) evs.
Proof.
  revert translations n w.
  induction needs as [|msgid rest IH]; intros translations n w; simpl.
  - exists []. rewrite app_nil_r. repeat split; [|constructor].
    intros [|??] ? Heq; discriminate.
  - destruct (flag e (polls w)) eqn:Hflag.
    + exists [EvPoll true]. simpl. repeat split.
      * intros [|? [|??]] after Heq; simplify_eq/=; done.
      * repeat constructor.
    + set (w1 := mkWorld (files w) (S (polls w)) (S (calls w))
                   ((trace w ++ [EvPoll false]) ++ [EvCall msgid])).
      assert (∀ tr' n', ∃ evs,
                 trace (translateLoop e src tgt rest tr' n' w1).2 = trace w ++ evs ∧
                 files (translateLoop e src tgt rest tr' n' w1).2 = files w ∧
                 stopsWhenSet evs ∧ Forall (λ ev, isWrite ev = false) evs) as Hrest.
      { intros tr' n'. destruct (IH tr' n' w1) as (evs & Htr & Hfs & Hstop & Hw).
        exists (EvPoll false :: EvCall msgid :: evs). repeat split.
        - rewrite Htr. unfold w1. simpl. by rewrite <- !app_assoc.
        - by rewrite Hfs.
        - intros [|ev1 [|ev2 before]] after Heq; simplify_eq/=.
          by eapply Hstop.
        - by repeat constructor. }
      simpl. destruct (backend e (calls w) msgid src tgt); apply Hrest.
Qed.

(** Once a read of the flag sees it set, the loop asks for nothing more:
    the keys left are not sent to the backend and nothing is recorded. *)
Lemma translateLoop_set_stops e src tgt needs translations n w :
  flag e (polls w) = true → needs ≠ [] →
  translateLoop e src tgt needs translations n w = (translations, n, (poll e w).2).
Proof.
  intros Hflag Hne. destruct needs as [|msgid rest]; [done|].
  simpl. by rewrite Hflag.
Qed.

(** A successful call is recorded and counted, and the loop goes on. *)
Lemma translateLoop_success e src tgt msgid rest translations n w translated :
  flag e (polls w) = false →
  backend e (calls w) msgid src tgt = Some translated →
  translateLoop e src tgt (msgid :: rest) translations n w
  = translateLoop e src tgt rest (<[msgid := translated]> translations) (S n)
      (translateCall e msgid src tgt (poll e w).2).2.
Proof. intros Hflag Hans. simpl. by rewrite Hflag, Hans. Qed.

(** C6 (the code departs from the claim).  A run stopped by the flag must
    end with the interrupt exit code.  With [--add-lang], three keys to
    translate and the flag set after the first success, one translation is
    written, the other two keys stay empty, no call follows the read that
    saw the flag, and the process ends with exit code 0, not 130. *)
Theorem C6_add_lang_interrupted_exits_zero :
  let run :=
    mainAddLang ToUpperASCII joinSlash (mkEnv (setFrom 1) shoutingBackend)
      (λ _, ["a"; "b"; "c"]) fixedTime (mkOptions false EmptyString "default" "de")
      "loc" "loc/default.pot" (entriesOf potABC) "en"
      (newWorld {[ "loc/default.pot" := potABC ]}) in
  exitCode run.1 = 0 ∧
  filter (λ ev, isWrite ev = false) (trace run.2)
  = [EvPoll false; EvCall "a"; EvPoll true] ∧
  files run.2 !! "loc/default_de.po"
  = Some (Join (langHeader "de" ++
                [ EmptyString; msgidLine "a"; msgstrLine "A";
                  EmptyString; msgidLine "b"; emptyMsgstr;
                  EmptyString; msgidLine "c"; emptyMsgstr; EmptyString ]) newline).
Proof. vm_compute. repeat split; reflexivity. Qed.


(** ** Incremental synchronisation: what is added and what is translated *)

Lemma foldM_app {A S : Type} (f : S → A → option S) st l1 l2 :
  foldM f st (l1 ++ l2) = foldM f st l1 ≫= λ st', foldM f st' l2.
Proof.
  revert st. induction l1 as [|x l1 IH]; intros st; simpl; [done|].
  destruct (f st x) as [st'|]; simpl; [apply IH|done].
Qed.

Lemma missingMsgids_filter visit existing :
  missingMsgids visit existing
  = filter (λ msgid, msgid ≠ EmptyString ∧ present existing msgid = false) visit.
Proof.
  unfold missingMsgids.
  assert (∀ acc,
    fold_left (λ missing msgid,
                 if nonEmpty msgid && negb (present existing msgid)
                 then missing ++ [msgid] else missing) visit acc
    = acc ++ filter (λ msgid, msgid ≠ EmptyString ∧ present existing msgid = false) visit)
    as Hgen.
  { induction visit as [|k visit IH]; intros acc; simpl.
    - by rewrite app_nil_r.
    - rewrite IH.
      destruct (decide (k ≠ EmptyString ∧ present existing k = false)) as [[Hk Hp]|Hn].
      + rewrite filter_cons_True by done. rewrite Hp.
        destruct k; [done|]. simpl. by rewrite <- app_assoc.
      + rewrite filter_cons_False by done.
        destruct k; [done|]. simpl.
        destruct (present existing (String a k)) eqn:Hp; [done|].
        destruct Hn. by split. }
  apply (Hgen []).
Qed.

Lemma needStep_needs potEntries st line st' :
  needStep potEntries st line = Some st' →
  nd_needs st' = nd_needs st
  ∨ (isMsgstr (TrimSpace line) = true ∧ nd_needs st' = nd_needs st ++ [nd_currentMsgid st]).
Proof.
  unfold needStep. intros H.
  destruct (isMsgid (TrimSpace line)).
  { destruct (extractString _); simplify_eq/=. by left. }
  destruct (isMsgstr (TrimSpace line)) eqn:Hm.
  { destruct (extractString _) as [msgstr|]; simplify_eq/=.
    destruct (wantsTranslation potEntries (nd_currentMsgid st) msgstr); [by right|by left]. }
  destruct (isLiteral (TrimSpace line) && nd_inMsgid st).
  { destruct (extractString _); simplify_eq/=. by left. }
  destruct (isLiteral (TrimSpace line) && nd_inMsgstr st).
  { destruct (extractString _); simplify_eq/=. by left. }
  destruct (isEmpty (TrimSpace line) || isComment (TrimSpace line)); simplify_eq/=; by left.
Qed.

Lemma increasing_snoc idx n :
  increasing idx → Forall (λ i, i < n) idx → increasing (idx ++ [n]).
Proof.
  intros Hinc Hlt a b i j Hab Ha Hb.
  destruct (decide (b < length idx)) as [Hb'|Hb'].
  - rewrite lookup_app_l in Ha, Hb by lia. exact (Hinc a b i j Hab Ha Hb).
  - pose proof (lookup_lt_Some _ _ _ Hb) as Hb2.
    rewrite length_app in Hb2. simpl in Hb2.
    rewrite lookup_app_l in Ha by lia.
    rewrite lookup_app_r in Hb by lia.
    destruct (b - length idx) as [|?]; simplify_eq/=.
    rewrite Forall_forall in Hlt. apply Hlt. by eapply list_elem_of_lookup_2.
Qed.

(** The keys found by the second pass, with the lines that own them. *)
Lemma needs_in_file_order potEntries lines st :
  foldM (needStep potEntries) needInit lines = Some st →
  ∃ idx : list nat,
    increasing idx ∧ Forall (λ i, i < length lines) idx ∧
    Forall2 (λ i key, ∃ line, lines !! i = Some line ∧
                              isMsgstr (TrimSpace line) = true ∧
                              keyAtLine potEntries lines i = Some key)
            idx (nd_needs st).
Proof.
  revert st. induction lines as [|line lines IH] using rev_ind; intros st Hrun.
  - simpl in Hrun. simplify_eq. exists []. repeat split; try constructor.
    intros a b i j _ Ha. done.
  - rewrite foldM_app in Hrun. simpl in Hrun.
    destruct (foldM (needStep potEntries) needInit lines) as [st0|] eqn:Hrun0; [|done].
    simpl in Hrun.
    destruct (needStep potEntries st0 line) as [st1|] eqn:Hstep; simplify_eq/=.
    destruct (IH st0 eq_refl) as (idx & Hinc & Hlt & Hall).
    assert (Forall2 (λ i key, ∃ l, (lines ++ [line]) !! i = Some l ∧
                                   isMsgstr (TrimSpace l) = true ∧
                                   keyAtLine potEntries (lines ++ [line]) i = Some key)
                    idx (nd_needs st0)) as Hall'.
    { eapply Forall2_impl; [exact Hall|].
      intros i key (l & Hl & Hm & Hk). simpl.
      pose proof (lookup_lt_Some _ _ _ Hl) as Hi.
      exists l. split; [by rewrite lookup_app_l|]. split; [done|].
      unfold keyAtLine in *. by rewrite take_app_le by lia. }
    rewrite length_app. simpl.
    destruct (needStep_needs _ _ _ _ Hstep) as [->|[Hm ->]].
    + exists idx. repeat split; [done| |done].
      eapply Forall_impl; [exact Hlt|]. simpl. lia.
    + exists (idx ++ [length lines]). repeat split.
      * by apply increasing_snoc.
      * apply Forall_app. split; [|repeat constructor; lia].
        eapply Forall_impl; [exact Hlt|]. simpl. lia.
      * apply Forall2_app; [done|]. constructor; [|constructor].
        exists line. split; [by apply list_lookup_middle|]. split; [done|].
        unfold keyAtLine. rewrite take_app_length. by rewrite Hrun0.
Qed.

(** C2 (as amended).  The keys to add are the keys of the template that
    the target lacks, each once, in the order the visit of the map hands
    them out; the keys to translate are listed in the order of the [msgstr]
    lines that own them in the target file. *)
Theorem C2_enumeration_orders
    (potEntries : gmap string POEntry) visit existing lines needs :
  rangeOrder potEntries visit →
  needsTranslation potEntries lines = Some needs →
  (NoDup (missingMsgids visit existing) ∧
   ∀ key, key ∈ missingMsgids visit existing
          ↔ is_Some (potEntries !! key) ∧ key ≠ EmptyString
            ∧ present existing key = false)
  ∧ inFileOrder potEntries lines needs.
Proof.
  intros Hvisit Hneeds. split.
  - rewrite missingMsgids_filter.
    assert (NoDup visit) as Hnd.
    { unfold rangeOrder in Hvisit. rewrite Hvisit. apply NoDup_elements. }
    split; [by apply NoDup_filter|].
    intros key. rewrite list_elem_of_filter.
    unfold rangeOrder in Hvisit. rewrite Hvisit, elem_of_elements, elem_of_dom.
    split; [intros [[Hk Hp] Hin]|intros (Hin & Hk & Hp)]; by repeat split.
  - unfold needsTranslation in Hneeds.
    destruct (foldM (needStep potEntries) needInit lines) as [st|] eqn:Hrun;
      simplify_eq/=.
    destruct (needs_in_file_order _ _ _ Hrun) as (idx & Hinc & _ & Hall).
    by exists idx.
Qed.

Lemma C2_witness :
  (NoDup (missingMsgids ["b"; "a"] (∅ : gmap string bool)) ∧
   ∀ key, key ∈ missingMsgids ["b"; "a"] (∅ : gmap string bool)
          ↔ is_Some (entriesOf potAB !! key) ∧ key ≠ EmptyString
            ∧ present (∅ : gmap string bool) key = false)
  ∧ inFileOrder (entriesOf potAB) (Split poBA newline) ["b"; "a"].
Proof.
  apply (C2_enumeration_orders (entriesOf potAB) ["b"; "a"] ∅ (Split poBA newline)
           ["b"; "a"]).
  - unfold rangeOrder. vm_compute. apply Permutation_swap.
  - vm_compute. reflexivity.
Defined.

(** C2, as first stated, fails: for the template [a, b] and a target that
    lists [b] before [a], both untranslated, the keys to translate come out
    as [b, a], which is not the order of the template. *)
Lemma C2_counterexample :
  templateOrder (scanLines potAB) = ["a"; "b"] ∧
  needsTranslation (entriesOf potAB) (Split poBA newline) = Some ["b"; "a"] ∧
  ¬ inTemplateOrder potAB ["b"; "a"].
Proof.
  split; [vm_compute; reflexivity|]. split; [vm_compute; reflexivity|].
  unfold inTemplateOrder.
  replace (templateOrder (scanLines potAB)) with ["a"; "b"] by (vm_compute; reflexivity).
  intros H. apply sublist_cons_l in H as (k1 & k2 & Heq & H).
  destruct k1 as [|x [|y [|]]]; simplify_eq/=.
  apply sublist_cons_l in H as (k1 & k2 & Heq & H). by destruct k1.
Qed.

(** The keys to add follow the visit of the map: two visits of the same
    template give two different files. *)
Example added_order_follows_visit :
  let e := mkEnv neverSet failingBackend in
  let w := newWorld {[ "po" := poBare ]} in
  rangeOrder (entriesOf potAB) ["a"; "b"] ∧ rangeOrder (entriesOf potAB) ["b"; "a"] ∧
  files (translatePoFile e ["a"; "b"] "po" (entriesOf potAB) "en" "es" w).2 !! "po"
  ≠ files (translatePoFile e ["b"; "a"] "po" (entriesOf potAB) "en" "es" w).2 !! "po".
Proof.
  split; [unfold rangeOrder; by vm_compute|].
  split; [unfold rangeOrder; vm_compute; apply Permutation_swap|].
  vm_compute. discriminate.
Qed.

(** ** Incremental synchronisation: the lines of an added entry *)

Lemma Contains_byte c s : Contains s (String c EmptyString) = hasByte c s.
Proof.
  induction s as [|d s IH]; [done|].
  cbn [Contains hasByte]. by rewrite prefix_byte, IH.
Qed.

Lemma quoted_line_feed text :
  quoted (text +:+ bslash +:+ "n") = dquote +:+ text +:+ bslash +:+ "n" +:+ dquote.
Proof. unfold quoted. by rewrite !append_assoc. Qed.

(** The literals [formatParts] writes: every piece but the last with an
    escaped line feed, the last piece if it is not empty. *)
Lemma formatParts_spelled part parts :
  formatParts (part :: parts)
  = ((λ piece, dquote +:+ escapeString piece +:+ bslash +:+ "n" +:+ dquote)
       <$> removelast (part :: parts))
    ++ (if bool_decide (List.last (part :: parts) EmptyString = EmptyString) then []
        else [dquote +:+ escapeString (List.last (part :: parts) EmptyString) +:+ dquote]).
Proof.
  revert part. induction parts as [|next parts IH]; intros part.
  - cbn [formatParts removelast List.last fmap list_fmap app].
    destruct part as [|c part]; [done|].
    rewrite bool_decide_eq_false_2 by done. done.
  - change (formatParts (part :: next :: parts))
      with (quoted (escapeString part +:+ bslash +:+ "n") :: formatParts (next :: parts)).
    rewrite IH, quoted_line_feed. done.
Qed.

Lemma formatField_spelled keyword text :
  formatField keyword text = keyLinesOf keyword text.
Proof.
  unfold formatField, keyLinesOf.
  change newline with (String lineFeed EmptyString). rewrite Contains_byte.
  destruct (hasByte lineFeed text); [|done].
  pose proof (Split_go_not_nil (String lineFeed EmptyString) 0 EmptyString text) as Hnn.
  unfold Split. destruct (Split_go _ 0 EmptyString text) as [|part parts]; [done|].
  by rewrite formatParts_spelled.
Qed.

Lemma addedBlock_spelled potEntries msgid :
  addedBlock potEntries msgid = addedEntryLines potEntries msgid.
Proof.
  unfold addedBlock, addedEntryLines, addedComments. rewrite formatField_spelled.
  by destruct (potEntries !! msgid) as [[msgstr [|comment comments]]|].
Qed.

Lemma appendMissing_blocks potEntries lines missing :
  appendMissing potEntries lines missing
  = endWithBlank lines ++ mjoin (addedBlock potEntries <$> missing).
Proof.
  unfold appendMissing. generalize (endWithBlank lines) as start.
  induction missing as [|msgid missing IH]; intros start; simpl.
  - by rewrite app_nil_r.
  - by rewrite IH, <- app_assoc.
Qed.

Lemma endWithBlank_last lines :
  endWithBlank lines
  = lines ++ (if bool_decide (List.last lines EmptyString = EmptyString)
              then [] else [EmptyString]).
Proof.
  unfold endWithBlank. destruct lines as [|l lines].
  - done.
  - destruct (List.last (l :: lines) EmptyString) eqn:Hlast; cbn [nonEmpty isEmpty negb].
    + rewrite bool_decide_eq_true_2 by done. by rewrite app_nil_r.
    + by rewrite bool_decide_eq_false_2 by done.
Qed.

(** What [translatePoFile] appends: a blank line unless the file ends with
    one, then the lines of each missing entry. *)
Lemma appendMissing_spelled potEntries lines missing :
  appendMissing potEntries lines missing
  = lines
    ++ (if bool_decide (List.last lines EmptyString = EmptyString) then []
        else [EmptyString])
    ++ mjoin (addedEntryLines potEntries <$> missing).
Proof.
  rewrite appendMissing_blocks, endWithBlank_last, <- app_assoc.
  do 3 f_equal. apply list_fmap_ext. intros ? msgid _. apply addedBlock_spelled.
Qed.

(** The keys [translatePoFile] finds missing: those handed out by the
    iteration over the template that are not empty and that the first pass
    has not recorded. *)
Lemma missingMsgids_spelled visit existing :
  missingMsgids visit existing
  = filter (λ msgid, msgid ≠ EmptyString ∧ existing !! msgid ≠ Some true) visit.
Proof.
  rewrite missingMsgids_filter. apply list_filter_iff. intros msgid.
  unfold present. destruct (existing !! msgid) as [[|]|]; simpl; split; intros [? ?]; done.
Qed.

(** ** Incremental synchronisation: the first write *)

Lemma translateLoop_all_fail e src tgt needs translations n w :
  (∀ i text, backend e i text src tgt = None) →
  (translateLoop e src tgt needs translations n w).1 = (translations, n).
Proof.
  intros Hfail. revert w. induction needs as [|msgid rest IH]; intros w; simpl; [done|].
  destruct (flag e (polls w)); [done|]. simpl. rewrite Hfail. apply IH.
Qed.

Lemma lookAhead_extends rest msgid newLines msgid' newLines' :
  lookAhead rest msgid newLines = Some (msgid', newLines') →
  ∃ extra, newLines' = newLines ++ extra.
Proof.
  revert msgid newLines. induction rest as [|next rest IH]; intros msgid newLines; simpl.
  - intros [= <- <-]. exists []. by rewrite app_nil_r.
  - destruct (isMsgstr (TrimSpace next)).
    { intros [= <- <-]. exists []. by rewrite app_nil_r. }
    destruct (isLiteral (TrimSpace next)).
    { destruct (extractString (TrimSpace next)) as [str|]; [|done]. simpl.
      intros H. destruct (IH _ _ H) as [extra ->].
      exists (next :: extra). by rewrite <- app_assoc. }
    destruct (nonEmpty (TrimSpace next) && negb (isComment (TrimSpace next))).
    { intros [= <- <-]. exists []. by rewrite app_nil_r. }
    intros H. destruct (IH _ _ H) as [extra ->].
    exists (next :: extra). by rewrite <- app_assoc.
Qed.

(** The patch only adds to the lines written so far, and it writes every
    [msgid] line it reads. *)
Lemma patchStep_extends translations prev st line rest st' :
  patchStep translations prev st line rest = Some st' →
  ∃ extra, pa_newLines st' = pa_newLines st ++ extra ∧
           (isMsgid (TrimSpace line) = true → line ∈ extra).
Proof.
  unfold patchStep. intros H.
  destruct (isMsgid (TrimSpace line)) eqn:Hid.
  { destruct (extractString _) as [msgid|]; [|done]. simpl in H.
    destruct (translations !! msgid).
    - destruct (lookAhead rest msgid (pa_newLines st ++ [line]))
        as [[msgid' newLines']|] eqn:Hla; [|done].
      simpl in H. simplify_eq/=.
      destruct (lookAhead_extends _ _ _ _ _ Hla) as [extra ->].
      exists (line :: extra). rewrite <- app_assoc. split; [done|]. intros _. left.
    - simplify_eq/=. exists [line]. split; [done|]. intros _. left. }
  destruct (isMsgstr (TrimSpace line)).
  { destruct (pa_skipNextMsgstr st); simplify_eq/=; eexists; split; done. }
  destruct (isLiteral (TrimSpace line) && pa_inMsgid st).
  { destruct (extractString _); simplify_eq/=. eexists; split; done. }
  destruct (pa_skipNextMsgstr st && isLiteral (TrimSpace line) &&
            match prev with Some before => Contains before "msgstr" | None => false end);
    destruct (isEmpty (TrimSpace line) || isComment (TrimSpace line));
    simplify_eq/=;
    first [ by (exists []; rewrite app_nil_r) | by (eexists; split) ].
Qed.

Lemma patchLoop_keeps_msgid translations prev st lines st' :
  patchLoop translations prev st lines = Some st' →
  ∃ extra, pa_newLines st' = pa_newLines st ++ extra ∧
           ∀ line, line ∈ lines → isMsgid (TrimSpace line) = true → line ∈ extra.
Proof.
  revert prev st. induction lines as [|line rest IH]; intros prev st; simpl.
  - intros [= <-]. exists []. split; [by rewrite app_nil_r|]. intros line Hin. inversion Hin.
  - destruct (patchStep translations prev st line rest) as [st1|] eqn:Hstep; [|done].
    simpl. intros Hloop.
    destruct (patchStep_extends _ _ _ _ _ _ Hstep) as (extra1 & Heq1 & Hline).
    destruct (IH _ _ Hloop) as (extra2 & Heq2 & Hrest).
    exists (extra1 ++ extra2). split; [by rewrite Heq2, Heq1, <- app_assoc|].
    intros l Hin Hid. apply elem_of_app.
    apply elem_of_cons in Hin as [->|Hin]; [left; by apply Hline|right; by apply Hrest].
Qed.

(** C9.  When keys are missing, the first thing [translatePoFile] does to
    the world is to write the file with the entries added: the lines of
    the file, a blank line unless the file ends with one, and for each
    missing key, in the order of the iteration, a blank line, its comments,
    its key and an empty [msgstr]; every call to the backend comes later.
    Unless the function returns a positive count of translations there is
    no other write and the file on disk is the one with the entries added;
    it returns no positive count when every call fails or when the first
    read of the flag sees it set; and when it does return a positive count,
    the file written last still holds every [msgid] line of the file with
    the entries added. *)
Theorem C9_added_entries_written_first
    e visit poFile potEntries src tgt (w : world) content existing :
  files w !! poFile = Some content →
  collectExisting (Split content newline) = Some existing →
  let missing :=
    filter (λ msgid, msgid ≠ EmptyString ∧ existing !! msgid ≠ Some true) visit in
  missing ≠ [] →
  let added :=
    Join (Split content newline
          ++ (if bool_decide (List.last (Split content newline) EmptyString = EmptyString)
              then [] else [EmptyString])
          ++ mjoin (addedEntryLines potEntries <$> missing)) newline in
  let run := translatePoFile e visit poFile potEntries src tgt w in
  ∃ later,
    trace run.2 = trace w ++ EvWrite poFile added :: later ∧
    ((∀ n, run.1 ≠ Done (S n)) →
       Forall (λ ev, isWrite ev = false) later ∧ files run.2 !! poFile = Some added) ∧
    ((∀ i text, backend e i text src tgt = None) → ∀ n, run.1 ≠ Done (S n)) ∧
    (flag e (polls w) = true → ∀ n, run.1 ≠ Done (S n)) ∧
    (∀ n, run.1 = Done (S n) →
       ∃ newLines, files run.2 !! poFile = Some (Join newLines newline) ∧
         ∀ line, line ∈ Split added newline → isMsgid (TrimSpace line) = true →
                 line ∈ newLines).
Proof.
  intros Hfile Hexisting missing Hmissing added run.
  unfold run, translatePoFile. rewrite Hfile, Hexisting.
  rewrite appendMissing_spelled, missingMsgids_spelled.
  fold missing. fold added.
  destruct missing as [|m ms] eqn:Hm; [done|].
  set (w1 := writeFile poFile added w).
  assert (files w1 !! poFile = Some added) as Hread by apply lookup_insert_eq.
  cbv beta iota zeta. fold w1. rewrite Hread. cbn [default from_option id].
  destruct (needsTranslation potEntries (Split added newline)) as [[|k needs]|] eqn:Hneeds.
  - exists []. simpl. repeat split; done.
  - destruct (translateLoop_trace e src tgt (k :: needs) ∅ 0 w1)
      as (evs & Htrace & Hfiles & _ & Hnowrite).
    pose proof (translateLoop_all_fail e src tgt (k :: needs) ∅ 0 w1) as Hfail.
    pose proof (translateLoop_set_stops e src tgt (k :: needs) ∅ 0 w1) as Hset.
    destruct (translateLoop e src tgt (k :: needs) ∅ 0 w1) as [[translations n] w2] eqn:Hloop.
    cbn [fst snd] in Htrace, Hfiles, Hfail.
    assert (trace w2 = trace w ++ EvWrite poFile added :: evs) as Htrace'.
    { rewrite Htrace. unfold w1. simpl. by rewrite <- app_assoc. }
    destruct n as [|n]; simpl.
    + exists evs. repeat split; try done. cbn [snd]. by rewrite Hfiles.
    + destruct (applyTranslations translations (Split added newline)) as [newLines|]
        eqn:Hpatch.
      * exists (evs ++ [EvWrite poFile (Join newLines newline)]).
        simpl. rewrite Htrace', <- app_assoc. simpl.
        split; [done|]. split; [intros Hno; by destruct (Hno n)|]. split; [|split].
        -- intros Hall. specialize (Hfail Hall). congruence.
        -- intros Hflag. assert (flag e (polls w1) = true) as Hflag1 by done.
           specialize (Hset Hflag1 ltac:(done)). congruence.
        -- intros _ _. exists newLines. split; [apply lookup_insert_eq|].
           unfold applyTranslations in Hpatch.
           destruct (patchLoop translations None patchInit (Split added newline))
             as [st'|] eqn:Hpass; simplify_eq/=.
           destruct (patchLoop_keeps_msgid _ _ _ _ _ Hpass) as (extra & -> & Hkeep).
           done.
      * exists evs. repeat split; try done. cbn [snd]. by rewrite Hfiles.
  - exists []. simpl. repeat split; done.
Qed.

(** [TestCommentsAreCopiedFromPOT] with a backend that fails: the file has
    the first of three entries; the other two are written, with the
    comments of the template, and stay. *)
Lemma C9_witness :
  let e := mkEnv neverSet failingBackend in
  let w := newWorld {[ "po" := poFirstOnly ]} in
  let run :=
    translatePoFile e ["Third"; "First"; "Second"] "po" (entriesOf potCommented)
      "en" "es" w in
  let added :=
    Join [ "msgid " +:+ dquote +:+ dquote;
           "msgstr " +:+ dquote +:+ dquote;
           dquote +:+ "Language: es" +:+ bslash +:+ "n" +:+ dquote;
           EmptyString;
           "#: source.py:10";
           "msgid " +:+ dquote +:+ "First" +:+ dquote;
           "msgstr " +:+ dquote +:+ "Primero" +:+ dquote;
           EmptyString;
           EmptyString;
           "#. Translator comment";
           "#: source.py:40";
           "msgid " +:+ dquote +:+ "Third" +:+ dquote;
           "msgstr " +:+ dquote +:+ dquote;
           EmptyString;
           "#: source.py:20";
           "#: source.py:30";
           "msgid " +:+ dquote +:+ "Second" +:+ dquote;
           "msgstr " +:+ dquote +:+ dquote ] newline in
  ∃ later,
    trace run.2 = trace w ++ EvWrite "po" added :: later ∧
    ((∀ n, run.1 ≠ Done (S n)) →
       Forall (λ ev, isWrite ev = false) later ∧ files run.2 !! "po" = Some added) ∧
    ((∀ i text, backend e i text "en" "es" = None) → ∀ n, run.1 ≠ Done (S n)) ∧
    (flag e (polls w) = true → ∀ n, run.1 ≠ Done (S n)) ∧
    (∀ n, run.1 = Done (S n) →
       ∃ newLines, files run.2 !! "po" = Some (Join newLines newline) ∧
         ∀ line, line ∈ Split added newline → isMsgid (TrimSpace line) = true →
                 line ∈ newLines).
Proof.
  intros e w run added.
  assert (collectExisting (Split poFirstOnly newline) = Some {[ "First" := true ]})
    as Hexisting by (vm_compute; reflexivity).
  exact (C9_added_entries_written_first e ["Third"; "First"; "Second"] "po"
           (entriesOf potCommented) "en" "es" w poFirstOnly {[ "First" := true ]}
           eq_refl Hexisting ltac:(vm_compute; discriminate)).
Defined.

(** ** Incremental synchronisation: the patch *)

(** [extractString] panics on a text that trims to a lone quote, and on no
    other. *)
Lemma extractString_None s : extractString s = None ↔ TrimSpace s = dquote.
Proof.
  unfold extractString. generalize (TrimSpace s) as t. intros t.
  destruct t as [|c [|d t]].
  - split; [intros H; vm_compute in H; discriminate | discriminate].
  - unfold HasPrefix, HasSuffix, dquote, byte. cbn [String.rev String.rev_app].
    rewrite !prefix_byte.
    destruct (bool_decide (c = ascii_of_nat 34)) eqn:Hc.
    + apply bool_decide_eq_true_1 in Hc as ->. split; [done|].
      intros _. reflexivity.
    + cbn [andb mbind option_bind]. split; [discriminate|].
      intros [= ->]. by rewrite bool_decide_eq_true_2 in Hc.
  - split; [|discriminate].
    destruct (HasPrefix (String c (String d t)) dquote
              && HasSuffix (String c (String d t)) dquote); [|discriminate].
    unfold slice. cbn [String.length Nat.sub].
    rewrite Nat.sub_0_r.
    replace (1 <=? S (String.length t)) with true by (symmetry; apply Nat.leb_le; lia).
    replace (S (String.length t) <=? S (S (String.length t))) with true
      by (symmetry; apply Nat.leb_le; lia).
    discriminate.
Qed.

Lemma msgid_not_msgstr trimmed : isMsgid trimmed = true → isMsgstr trimmed = false.
Proof.
  unfold isMsgid, isMsgstr, HasPrefix. intros H.
  rewrite (prefix_split _ _ H). reflexivity.
Qed.

Lemma translatedKey_not_msgid translations prev :
  isMsgidLine prev = false → prev ≫= translatedKey translations = None.
Proof.
  destruct prev as [line|]; [|done]. simpl. intros H.
  unfold translatedKey. by rewrite H.
Qed.

Lemma singleLineKeys_tail line rest : singleLineKeys (line :: rest) → singleLineKeys rest.
Proof. intros H i l Hi Hid. exact (H (S i) l Hi Hid). Qed.

Lemma singleLineKeys_paired prev lines :
  (isMsgidLine prev = true →
   ∃ next, head lines = Some next ∧ isMsgstr (TrimSpace next) = true) →
  singleLineKeys lines →
  pairedFrom prev lines.
Proof.
  revert prev. induction lines as [|line rest IH]; intros prev Hprev Hlines.
  - simpl. destruct (isMsgidLine prev); [|done].
    destruct (Hprev eq_refl) as (next & Hnext & _). done.
  - simpl. split.
    + intros Hid. destruct (Hprev Hid) as (next & [= <-] & Hstr). done.
    + apply IH; [|by eapply singleLineKeys_tail].
      intros Hid. destruct (Hlines 0 line eq_refl Hid) as (next & Hnext & Hstr).
      exists next. split; [|done]. by destruct rest.
Qed.

Lemma lookAhead_paired line rest msgid newLines :
  isMsgid (TrimSpace line) = true →
  pairedFrom (Some line) rest →
  lookAhead rest msgid newLines = Some (msgid, newLines).
Proof.
  intros Hid Hpaired. destruct rest as [|next rest].
  - simpl in Hpaired. congruence.
  - simpl in Hpaired. destruct Hpaired as [Hnext _].
    simpl. by rewrite (Hnext Hid).
Qed.

Lemma patchStep_paired translations prev st line rest :
  patchInv translations prev st →
  (isMsgidLine prev = true → isMsgstr (TrimSpace line) = true) →
  pairedFrom (Some line) rest →
  (isMsgid (TrimSpace line) = true →
   TrimSpace (dropBytes 6 (TrimSpace line)) ≠ dquote) →
  ∃ st',
    patchStep translations prev st line rest = Some st' ∧
    pa_newLines st' = pa_newLines st ++ patchedLine translations prev line ∧
    patchInv translations (Some line) st'.
Proof.
  intros [Hin Hinv] Hprev Hpaired Hread.
  unfold patchStep, patchedLine, patchInv in *. cbn [mbind option_bind isMsgidLine] in *.
  destruct (isMsgid (TrimSpace line)) eqn:Hid.
  - (* a [msgid] line *)
    rewrite (msgid_not_msgstr _ Hid) in *.
    destruct (extractString (dropBytes 6 (TrimSpace line))) as [msgid|] eqn:Hmsgid;
      [|by apply extractString_None, Hread in Hmsgid].
    assert (translatedKey translations line = translations !! msgid) as Hkey.
    { unfold translatedKey. by rewrite Hid, Hmsgid. }
    cbn [mbind option_bind]. rewrite Hkey.
    destruct (translations !! msgid) as [translation|] eqn:Htr.
    + rewrite (lookAhead_paired line rest) by done.
      cbn [mbind option_bind]. eexists. split; [reflexivity|]. by simpl.
    + eexists. split; [reflexivity|]. simpl. split; [done|]. split; [done|].
      destruct (isMsgidLine prev) eqn:Hp; [by specialize (Hprev eq_refl)|].
      by rewrite translatedKey_not_msgid in Hinv.
  - assert (translatedKey translations line = None) as Hkey.
    { unfold translatedKey. by rewrite Hid. }
    rewrite Hkey.
    destruct (isMsgstr (TrimSpace line)) eqn:Hstr.
    + (* a [msgstr] line *)
      rewrite formatField_spelled.
      destruct (prev ≫= translatedKey translations) as [translation|] eqn:Hp.
      * destruct Hinv as [-> Htr]. rewrite Htr.
        eexists. split; [reflexivity|]. by simpl.
      * rewrite Hinv. eexists. split; [reflexivity|]. by simpl.
    + (* any other line *)
      destruct (isMsgidLine prev) eqn:Hp; [by specialize (Hprev eq_refl)|].
      rewrite translatedKey_not_msgid in Hinv by done.
      rewrite Hin, Hinv, andb_false_r. simpl.
      destruct (isEmpty (TrimSpace line) || isComment (TrimSpace line));
        eexists; (split; [reflexivity|]); by simpl.
Qed.

Lemma patchLoop_paired translations prev st lines :
  patchInv translations prev st →
  pairedFrom prev lines →
  keysReadable lines →
  ∃ st',
    patchLoop translations prev st lines = Some st' ∧
    pa_newLines st' = pa_newLines st ++ patched translations prev lines.
Proof.
  revert prev st. induction lines as [|line rest IH]; intros prev st Hinv Hpaired Hread.
  - simpl. eexists. split; [reflexivity|]. by rewrite app_nil_r.
  - simpl in Hpaired. destruct Hpaired as [Hprev Hpaired].
    destruct (patchStep_paired translations prev st line rest Hinv Hprev Hpaired)
      as (st1 & Hstep & Hlines & Hinv1).
    { apply Hread. left. }
    destruct (IH (Some line) st1 Hinv1 Hpaired) as (st' & Hloop & Hlines').
    { intros l Hl. apply Hread. by right. }
    exists st'. simpl. rewrite Hstep. cbn [mbind option_bind].
    split; [done|]. by rewrite Hlines', Hlines, <- app_assoc.
Qed.

(** X3. In a file whose keys stand each on its [msgid] line, directly followed
    by the [msgstr] line, the patch replaces the [msgstr] line of every key
    that has a translation by the lines of the translation, and keeps every
    other line as it is, once and in place. *)
Theorem patch_of_single_line_keys
    (translations : gmap string string) (lines : list string) :
  singleLineKeys lines →
  keysReadable lines →
  applyTranslations translations lines = Some (patched translations None lines).
Proof.
  intros Hsingle Hread. unfold applyTranslations.
  destruct (patchLoop_paired translations None patchInit lines)
    as (st' & Hloop & Hlines); [done| |done|].
  - apply singleLineKeys_paired; [done|exact Hsingle].
  - rewrite Hloop. simpl. by rewrite Hlines.
Qed.

Lemma patch_of_single_line_keys_witness :
  let lines := [ msgidLine "Hello"; msgstrLine "Hola"; EmptyString;
                 "#: app.py:5"; msgidLine "World"; emptyMsgstr; EmptyString;
                 msgidLine "Two lines"; emptyMsgstr; quoted "kept"; EmptyString ] in
  applyTranslations {[ "World" := "Mundo"; "Two lines" := "Dos" +:+ newline +:+ "lineas" ]}
    lines
  = Some [ msgidLine "Hello"; msgstrLine "Hola"; EmptyString;
           "#: app.py:5"; msgidLine "World"; msgstrLine "Mundo"; EmptyString;
           msgidLine "Two lines"; emptyMsgstr;
           quoted ("Dos" +:+ bslash +:+ "n"); quoted "lineas"; quoted "kept";
           EmptyString ].
Proof.
  intros lines.
  refine (patch_of_single_line_keys
            {[ "World" := "Mundo"; "Two lines" := "Dos" +:+ newline +:+ "lineas" ]}
            lines _ _).
  - intros i line Hi Hid. unfold lines in Hi.
    do 11 (destruct i as [|i];
           [ injection Hi as <-; vm_compute in Hid; try discriminate Hid;
             eexists; split; reflexivity | ]).
    discriminate Hi.
  - intros line Hin Hid. unfold lines in Hin.
    repeat (apply elem_of_cons in Hin as [->|Hin];
            [vm_compute in Hid; try discriminate Hid; vm_compute; discriminate|]).
    by apply elem_of_nil in Hin.
Defined.

(** C4.  The patch writes twice the lines that stand between a [msgid]
    whose key has a translation and its [msgstr].  A run on a file with a
    comment there writes the comment twice; a literal there is written
    twice as well, which lengthens the key on disk, and the translation of
    the key is not written. *)
Theorem C4_lines_between_written_twice :
  (let entries : gmap string POEntry := {[ "Hello" := mkPOEntry EmptyString [] ]} in
   let text :=
     Join [ msgidLine EmptyString; emptyMsgstr; EmptyString;
            msgidLine "Hello"; "# note"; emptyMsgstr; EmptyString ] newline in
   let run :=
     translatePoFile (mkEnv neverSet shoutingBackend) ["Hello"] "po" entries
       "en" "es" (newWorld {[ "po" := text ]}) in
   run.1 = Done 1 ∧
   files run.2 !! "po"
   = Some (Join [ msgidLine EmptyString; emptyMsgstr; EmptyString;
                  msgidLine "Hello"; "# note"; "# note"; msgstrLine "HELLO";
                  EmptyString ] newline))
  ∧ applyTranslations {[ "Save" := "Guardar"; "Save as" := "Guardar como" ]}
      [msgidLine "Save"; quoted " as"; emptyMsgstr]
    = Some [msgidLine "Save"; quoted " as"; quoted " as"; emptyMsgstr].
Proof. vm_compute. repeat split; reflexivity. Qed.

(** An entry without comments in the template is added with a comment line
    of the program's own, which the template does not hold. *)
Example added_without_comments :
  appendMissing (entriesOf potAB) (Split poBare newline) ["a"]
  = Split poBare newline
    ++ [EmptyString; "#: (added from POT)"; msgidLine "a"; emptyMsgstr] ∧
  appendMissing (entriesOf potAB) (Split poBare newline) ["a"]
  ≠ Split poBare newline ++ mjoin (statedBlock (entriesOf potAB) <$> ["a"]).
Proof. split; [vm_compute; reflexivity | vm_compute; discriminate]. Qed.

(** A key written on several lines is looked up by its first line only:
    its translation is not written.  A run then counts a translation that
    the file does not hold. *)
Example recorded_translation_not_written :
  let text := Join [msgidLine EmptyString; quoted "Hello "; quoted "World"; emptyMsgstr]
                newline in
  let entries : gmap string POEntry := {[ "Hello World" := mkPOEntry EmptyString [] ]} in
  let run :=
    translatePoFile (mkEnv neverSet shoutingBackend) ["Hello World"] "po" entries
      "en" "es" (newWorld {[ "po" := text ]}) in
  run.1 = Done 1 ∧ files run.2 !! "po" = Some text.
Proof. vm_compute. split; reflexivity. Qed.

(** The same on the lines alone. *)
Example split_key_not_patched :
  applyTranslations {[ "ab" := "x" ]} [msgidLine "a"; quoted "b"; emptyMsgstr]
  = Some [msgidLine "a"; quoted "b"; emptyMsgstr].
Proof. vm_compute. reflexivity. Qed.

(** Only the [msgstr] line is replaced: literal lines below it stay, and
    read as the end of the translation. *)
Example literals_below_msgstr_stay :
  applyTranslations {[ "a" := "x" ]} [msgidLine "a"; emptyMsgstr; quoted "old"]
  = Some [msgidLine "a"; msgstrLine "x"; quoted "old"].
Proof. vm_compute. reflexivity. Qed.

(** ** Incremental synchronisation: idempotence *)

(** When no key is missing and no key wants a translation,
    [translatePoFile] returns 0 and leaves the world as it is. *)
Lemma translatePoFile_nothing_to_do
    e visit poFile potEntries src tgt (w : world) content existing :
  files w !! poFile = Some content →
  collectExisting (Split content newline) = Some existing →
  missingMsgids visit existing = [] →
  needsTranslation potEntries (Split content newline) = Some [] →
  translatePoFile e visit poFile potEntries src tgt w = (Done 0, w).
Proof.
  intros Hfile Hexisting Hmissing Hneeds. unfold translatePoFile.
  by rewrite Hfile, Hexisting, Hmissing, Hneeds.
Qed.

(** C5 (the code departs from the claim).  A second run on the output of
    the first must add nothing.  The key [C:\\dir] is written with its
    backslashes doubled and read back with them still doubled, so the
    second run does not find it and adds it again (the gap of C1). *)
Theorem C5_second_run_adds_again :
  let e := mkEnv neverSet shoutingBackend in
  let key := "C:" +:+ bslash +:+ bslash +:+ "dir" in
  let first :=
    translatePoFile e [key] "po" (entriesOf potPath) "en" "es"
      (newWorld {[ "po" := poBare ]}) in
  let second :=
    translatePoFile e [key] "po" (entriesOf potPath) "en" "es" first.2 in
  rangeOrder (entriesOf potPath) [key] ∧
  first.1 = Done 0 ∧ second.1 = Done 0 ∧
  length (filter (λ ev, isWrite ev = true) (trace first.2)) = 1 ∧
  length (filter (λ ev, isWrite ev = true) (trace second.2)) = 2 ∧
  files second.2 !! "po" ≠ files first.2 !! "po".
Proof.
  split; [unfold rangeOrder; by vm_compute|].
  vm_compute. repeat split; try reflexivity. discriminate.
Qed.

(** ** Full reconstruction *)


(** A key counts as removed exactly when the old file has it, the template
    does not, and it is not the empty key. *)
Lemma removedCount_spec potEntries (existing : gmap string string) :
  removedCount potEntries existing
  = length (filter (λ msgid, (msgid ∉ dom potEntries) ∧ msgid ≠ EmptyString)
                   (elements (dom existing))).
Proof.
  unfold removedCount. f_equal. apply list_filter_iff.
  intros msgid. by rewrite not_elem_of_dom.
Qed.

(** C3 (the code departs from the claim).  The rewritten file must list
    the entries in the order of the template.  The entries are written by a
    [range] over the map of the template, whose order Go does not fix: for
    the template [a, b, c] and the visit [c, a, b] the file lists
    [c, a, b].  The obsolete key [old] is dropped and counted. *)
Theorem C3_rewrite_follows_map_order :
  let run :=
    rewritePoFile (mkEnv neverSet failingBackend) ["c"; "a"; "b"] ["c"; "a"; "b"]
      "po" (entriesOf potABC) "en" "es" (newWorld {[ "po" := poCAOld ]}) in
  rangeOrder (entriesOf potABC) ["c"; "a"; "b"] ∧
  keysInOrder potABC = ["a"; "b"; "c"] ∧
  run.1 = Done (0, 1) ∧
  keysInOrder (default EmptyString (files run.2 !! "po")) = ["c"; "a"; "b"].
Proof.
  split; [|vm_compute; repeat split; reflexivity].
  unfold rangeOrder. by vm_compute.
Qed.

(** ** Bootstrap *)

Lemma headerField_spelled name value :
  headerField name value = dquote +:+ name +:+ ": " +:+ value +:+ bslash +:+ "n" +:+ dquote.
Proof. unfold headerField, quoted. by rewrite !append_assoc. Qed.

Lemma headerFlagAt_S lines i :
  headerFlagAt lines (S i) = headerFlagAt lines i && negb (endsHeader lines i).
Proof.
  unfold headerFlagAt. rewrite seq_S, forallb_app. simpl. by rewrite andb_true_r.
Qed.

Lemma endsHeader_middle pre line rest :
  endsHeader (pre ++ line :: rest) (length pre)
  = leavesHeader (length pre =? 0) line (head rest).
Proof.
  unfold endsHeader, leavesHeader.
  rewrite list_lookup_middle by done.
  replace (S (length pre)) with (length (pre ++ [line])) by (rewrite length_app; simpl; lia).
  rewrite (cons_middle line pre rest), app_assoc.
  destruct rest as [|after rest]; simpl.
  - rewrite lookup_ge_None_2 by (rewrite app_nil_r; lia).
    by rewrite !andb_false_r.
  - rewrite list_lookup_middle by done. by rewrite !andb_assoc.
Qed.

(** The loop of [copyPotToPo] keeps the flag [inHeader] equal to
    [headerFlagAt] and writes [copiedLine] for each line. *)
Lemma copyLoop_lines ToUpper targetLang now pre rest newLines :
  copyLoop ToUpper targetLang now (length pre) (headerFlagAt (pre ++ rest) (length pre))
    newLines rest
  = newLines
    ++ imap (λ k, copiedLine ToUpper targetLang now (pre ++ rest) (length pre + k)) rest.
Proof.
  revert pre newLines. induction rest as [|line rest IH]; intros pre newLines.
  - simpl. by rewrite app_nil_r.
  - rewrite imap_cons. cbn [copyLoop].
    assert (∀ inHeader' copied,
      inHeader' = headerFlagAt (pre ++ line :: rest) (S (length pre)) →
      copied = copiedLine ToUpper targetLang now (pre ++ line :: rest) (length pre + 0) line →
      copyLoop ToUpper targetLang now (S (length pre)) inHeader' (newLines ++ [copied]) rest
      = newLines
        ++ copied
           :: imap ((λ k, copiedLine ToUpper targetLang now (pre ++ line :: rest)
                            (length pre + k)) ∘ S) rest) as Hstep.
    { intros inHeader' copied -> _.
      specialize (IH (pre ++ [line]) (newLines ++ [copied])).
      rewrite <- app_assoc in IH. simpl in IH.
      rewrite length_app in IH. simpl in IH.
      replace (length pre + 1) with (S (length pre)) in IH by lia.
      rewrite IH, <- app_assoc. simpl. do 2 f_equal.
      apply imap_ext. intros k x _. simpl. f_equal. lia. }
    pose proof (headerFlagAt_S (pre ++ line :: rest) (length pre)) as HS.
    rewrite endsHeader_middle in HS.
    assert (∀ t, Contains line (dquote +:+ t) = true →
                 leavesHeader (length pre =? 0) line (head rest) = false) as Hstay.
    { intros t Ht. unfold leavesHeader.
      rewrite (quoted_line_not_blank _ _ Ht). by rewrite andb_false_r. }
    destruct (headerFlagAt (pre ++ line :: rest) (length pre)) eqn:Hin;
      cbn [andb] in HS |- *.
    + destruct (Contains line (dquote +:+ "Language:")) eqn:HL.
      { assert (copiedLine ToUpper targetLang now (pre ++ line :: rest)
                  (length pre + 0) line = headerField "Language" targetLang) as Hc
          by (unfold copiedLine; by rewrite headerField_spelled, Nat.add_0_r, Hin, HL).
        rewrite Hc. apply Hstep; [|by rewrite Hc].
        by rewrite HS, (Hstay _ HL). }
      destruct (Contains line (dquote +:+ "Language-Team:")) eqn:HT.
      { assert (copiedLine ToUpper targetLang now (pre ++ line :: rest)
                  (length pre + 0) line
                = headerField "Language-Team" (ToUpper targetLang)) as Hc
          by (unfold copiedLine; by rewrite headerField_spelled, Nat.add_0_r, Hin, HL, HT).
        rewrite Hc. apply Hstep; [|by rewrite Hc].
        by rewrite HS, (Hstay _ HT). }
      destruct (Contains line (dquote +:+ "PO-Revision-Date:")) eqn:HD.
      { assert (copiedLine ToUpper targetLang now (pre ++ line :: rest)
                  (length pre + 0) line
                = headerField "PO-Revision-Date" (now (length pre))) as Hc
          by (unfold copiedLine; by rewrite headerField_spelled, Nat.add_0_r, Hin, HL, HT, HD).
        rewrite Hc. apply Hstep; [|by rewrite Hc].
        by rewrite HS, (Hstay _ HD). }
      assert (copiedLine ToUpper targetLang now (pre ++ line :: rest)
                (length pre + 0) line = line) as Hc
        by (unfold copiedLine; by rewrite Nat.add_0_r, Hin, HL, HT, HD).
      rewrite Hc. apply Hstep; [|by rewrite Hc].
      rewrite HS. by destruct (leavesHeader (length pre =? 0) line (head rest)).
    + assert (copiedLine ToUpper targetLang now (pre ++ line :: rest)
                (length pre + 0) line = line) as Hc
        by (unfold copiedLine; by rewrite Nat.add_0_r, Hin).
      rewrite Hc. apply Hstep; [|by rewrite Hc]. by rewrite HS.
Qed.

(** X4. The clone of a template has as many lines as the template, and its
    line [i] is line [i] of the template, except that a line read while the
    flag [inHeader] is set is replaced by the [Language] field with the target
    code if it carries [Language:], else by the [Language-Team] field with the
    code in upper case if it carries [Language-Team:], else by the
    [PO-Revision-Date] field with the time read if it carries
    [PO-Revision-Date:]. The flag is cleared at the first blank line, other
    than the first line of the file, that is followed by a line which is
    neither blank nor a literal. *)
Theorem clone_line_for_line
    (ToUpper : string → string) (now : nat → string)
    (potFile newPoFile targetLang : string) (w : world) (content : string) :
  files w !! potFile = Some content →
  ∃ newLines,
    copyPotToPo ToUpper now potFile newPoFile targetLang w
    = (Done (), writeFile newPoFile (Join newLines newline) w) ∧
    length newLines = length (Split content newline) ∧
    ∀ i line, Split content newline !! i = Some line →
      newLines !! i
      = Some (copiedLine ToUpper targetLang now (Split content newline) i line).
Proof.
  intros Hfile. unfold copyPotToPo. rewrite Hfile.
  pose proof (copyLoop_lines ToUpper targetLang now [] (Split content newline) []) as Hloop.
  simpl in Hloop. change (headerFlagAt (Split content newline) 0) with true in Hloop.
  eexists. split; [reflexivity|]. rewrite Hloop. split.
  - by rewrite length_imap.
  - intros i line Hi. by rewrite list_lookup_imap, Hi.
Qed.

Lemma clone_line_for_line_witness :
  ∃ newLines,
    copyPotToPo ToUpperASCII fixedTime "default.pot" "default_es.po" "es"
      (newWorld {[ "default.pot" := potFull ]})
    = (Done (), writeFile "default_es.po" (Join newLines newline)
                  (newWorld {[ "default.pot" := potFull ]})) ∧
    length newLines = length (Split potFull newline) ∧
    ∀ i line, Split potFull newline !! i = Some line →
      newLines !! i
      = Some (copiedLine ToUpperASCII "es" fixedTime (Split potFull newline) i line).
Proof.
  apply (clone_line_for_line ToUpperASCII fixedTime "default.pot" "default_es.po" "es"
           (newWorld {[ "default.pot" := potFull ]}) potFull).
  reflexivity.
Defined.

(** C7.  In a template that has a blank line before its header entry, as
    after a licence note, the flag [inHeader] is cleared at that blank
    line: no field of the header is rewritten.  The clone is the template
    byte for byte, it still names the language of the template, and a
    later run reads that language as the target of the clone.  In the
    template of [TestCopyPotToPo], whose header entry follows the first
    line, the three fields are rewritten. *)
Theorem C7_header_after_blank_line_not_rewritten :
  let w := newWorld {[ "test.pot" := potFull; "default.pot" := potLateHeader ]} in
  let test := copyPotToPo ToUpperASCII fixedTime "test.pot" "test_de.po" "de" w in
  let run := copyPotToPo ToUpperASCII fixedTime "default.pot" "default_de.po" "de" w in
  (take 9 (Split potFull newline)
   = [ "# Translation Template";
       "msgid " +:+ dquote +:+ dquote;
       "msgstr " +:+ dquote +:+ dquote;
       dquote +:+ "Project-Id-Version: Test 1.0" +:+ bslash +:+ "n" +:+ dquote;
       dquote +:+ "Language: en" +:+ bslash +:+ "n" +:+ dquote;
       dquote +:+ "Language-Team: English" +:+ bslash +:+ "n" +:+ dquote;
       dquote +:+ "PO-Revision-Date: 2024-01-01 12:00+0000" +:+ bslash +:+ "n" +:+ dquote;
       dquote +:+ "Content-Type: text/plain; charset=UTF-8" +:+ bslash +:+ "n" +:+ dquote;
       EmptyString ]
   ∧ (take 9 ∘ (λ text, Split text newline)) <$> files test.2 !! "test_de.po"
     = Some [ "# Translation Template";
              "msgid " +:+ dquote +:+ dquote;
              "msgstr " +:+ dquote +:+ dquote;
              dquote +:+ "Project-Id-Version: Test 1.0" +:+ bslash +:+ "n" +:+ dquote;
              dquote +:+ "Language: de" +:+ bslash +:+ "n" +:+ dquote;
              dquote +:+ "Language-Team: DE" +:+ bslash +:+ "n" +:+ dquote;
              dquote +:+ "PO-Revision-Date: 2026-01-01 00:00+0000" +:+ bslash +:+ "n"
                +:+ dquote;
              dquote +:+ "Content-Type: text/plain; charset=UTF-8" +:+ bslash +:+ "n"
                +:+ dquote;
              EmptyString ])
  ∧ take 10 (Split potLateHeader newline)
    = [ "# Translations of the application.";
        EmptyString;
        "msgid " +:+ dquote +:+ dquote;
        "msgstr " +:+ dquote +:+ dquote;
        dquote +:+ "Project-Id-Version: Test 1.0" +:+ bslash +:+ "n" +:+ dquote;
        dquote +:+ "Language: en" +:+ bslash +:+ "n" +:+ dquote;
        dquote +:+ "Language-Team: English" +:+ bslash +:+ "n" +:+ dquote;
        dquote +:+ "PO-Revision-Date: 2024-01-01 12:00+0000" +:+ bslash +:+ "n" +:+ dquote;
        dquote +:+ "Content-Type: text/plain; charset=UTF-8" +:+ bslash +:+ "n" +:+ dquote;
        EmptyString ]
  ∧ run = (Done (), writeFile "default_de.po" potLateHeader w)
  ∧ getTargetLanguage (files run.2) "default_de.po" = Done "en".
Proof. vm_compute. repeat split; reflexivity. Qed.

(** [TestCopyPotToPo] on the model: the three fields of the header are
    rewritten; the comment of an entry that quotes a [Language:] field, past
    the header, is copied as it is. *)
Example clone_sample :
  (copyPotToPo ToUpperASCII fixedTime "default.pot" "default_es.po" "es"
     (newWorld {[ "default.pot" := potFull ]})).2.(files) !! "default_es.po"
  = Some (Join [ "# Translation Template";
                 msgidLine EmptyString;
                 emptyMsgstr;
                 quoted ("Project-Id-Version: Test 1.0" +:+ bslash +:+ "n");
                 quoted ("Language: es" +:+ bslash +:+ "n");
                 quoted ("Language-Team: ES" +:+ bslash +:+ "n");
                 quoted ("PO-Revision-Date: 2026-01-01 00:00+0000" +:+ bslash +:+ "n");
                 quoted ("Content-Type: text/plain; charset=UTF-8" +:+ bslash +:+ "n");
                 EmptyString;
                 "#: test.py:10";
                 msgidLine "Hello";
                 emptyMsgstr;
                 EmptyString;
                 "#: about " +:+ quoted "Language: xx";
                 msgidLine "World";
                 emptyMsgstr;
                 EmptyString ] newline).
Proof. vm_compute. reflexivity. Qed.

(** C8.  With [--add-lang] and a two-letter code, if the destination path
    exists the run ends with exit code 1 and the complaint that the file
    already exists, and the world is as it was: no file is written, the
    destination included. *)
Theorem C8_destination_exists_no_write
    ToUpper pathJoin e visit now opts directory potFile potEntries lang (w : world) :
  String.length (addLang opts) = 2 →
  is_Some (files w !! pathJoin directory (domain opts +:+ "_" +:+ addLang opts +:+ ".po")) →
  mainAddLang ToUpper pathJoin e visit now opts directory potFile potEntries lang w
  = (failWith ("Error: PO file '"
               +:+ pathJoin directory (domain opts +:+ "_" +:+ addLang opts +:+ ".po")
               +:+ "' already exists"), w).
Proof.
  intros Hlen [old Hold]. unfold mainAddLang.
  rewrite Hlen. simpl. by rewrite Hold.
Qed.

Lemma C8_witness :
  let w := newWorld {[ "loc/default.pot" := potAB; "loc/default_de.po" := poBare ]} in
  mainAddLang ToUpperASCII joinSlash (mkEnv neverSet failingBackend) (λ _, ["a"; "b"])
    fixedTime (mkOptions false EmptyString "default" "de") "loc" "loc/default.pot"
    (entriesOf potAB) "en" w
  = (failWith "Error: PO file 'loc/default_de.po' already exists", w).
Proof.
  intros w.
  apply (C8_destination_exists_no_write ToUpperASCII joinSlash
           (mkEnv neverSet failingBackend) (λ _, ["a"; "b"]) fixedTime
           (mkOptions false EmptyString "default" "de") "loc" "loc/default.pot"
           (entriesOf potAB) "en" w).
  - reflexivity.
  - vm_compute. eexists. reflexivity.
Defined.

(** * Further properties of the code *)

(** ** The escaper, byte by byte *)

Lemma hasByte_mapBytes x f s :
  (∀ c, hasByte x (f c) = false) → hasByte x (mapBytes f s) = false.
Proof.
  intros Hf. induction s as [|c s IH]; [done|].
  cbn [mapBytes]. by rewrite hasByte_app, Hf, IH.
Qed.

Lemma escapeString_bytes s : escapeString s = mapBytes escapeAny s.
Proof.
  unfold escapeString.
  change bslash with (oneByte backslash).
  change dquote with (oneByte (ascii_of_nat 34)).
  change newline with (oneByte (ascii_of_nat 10)).
  change tab with (oneByte (ascii_of_nat 9)).
  rewrite !ReplaceAll_byte, !mapBytes_compose.
  apply mapBytes_ext. intros c _. unfold escapeAny, escapePiece.
  destruct (decide (c = backslash)) as [->|H92]; [reflexivity|].
  destruct (decide (c = ascii_of_nat 34)) as [->|H34]; [reflexivity|].
  destruct (decide (c = ascii_of_nat 10)) as [->|H10]; [reflexivity|].
  destruct (decide (c = ascii_of_nat 9)) as [->|H9]; [reflexivity|].
  rewrite !bool_decide_eq_false_2 by done.
  cbn [mapBytes oneByte String.append]. rewrite !bool_decide_eq_false_2 by done.
  cbn [mapBytes oneByte String.append]. rewrite !bool_decide_eq_false_2 by done.
  cbn [mapBytes oneByte String.append]. rewrite !bool_decide_eq_false_2 by done.
  reflexivity.
Qed.

Lemma escapeAny_no_control c :
  hasByte lineFeed (escapeAny c) = false ∧ hasByte (ascii_of_nat 9) (escapeAny c) = false.
Proof.
  unfold escapeAny, escapePiece.
  destruct (decide (c = backslash)) as [->|H92]; [by vm_compute|].
  destruct (decide (c = ascii_of_nat 34)) as [->|H34]; [by vm_compute|].
  destruct (decide (c = ascii_of_nat 10)) as [->|H10]; [by vm_compute|].
  destruct (decide (c = ascii_of_nat 9)) as [->|H9]; [by vm_compute|].
  rewrite !bool_decide_eq_false_2 by done.
  unfold oneByte, lineFeed. simpl. by rewrite !bool_decide_eq_false_2 by done.
Qed.

(** X2. The four replacements of [escapeString] do not interfere: the result
    is the text with each byte escaped on its own ([escapeAny]). It holds no
    line feed and no tab, so an escaped text stays on one line. *)
Theorem escapeString_byte_by_byte s :
  escapeString s = mapBytes escapeAny s ∧
  hasByte lineFeed (escapeString s) = false ∧
  hasByte (ascii_of_nat 9) (escapeString s) = false.
Proof.
  rewrite escapeString_bytes. split; [done|].
  split; apply hasByte_mapBytes; intros c; apply escapeAny_no_control.
Qed.

(** ** Lines written and read again *)

Lemma rev_app_acc s acc : String.rev_app s acc = String.rev_app s EmptyString +:+ acc.
Proof.
  revert acc. induction s as [|a s IH]; intros acc; [done|].
  cbn [String.rev_app]. rewrite (IH (String a acc)), (IH (String a EmptyString)).
  by rewrite append_assoc.
Qed.

Lemma Split_go_plain c cur l :
  hasByte c l = false → Split_go (oneByte c) 0 cur l = [String.rev_app cur l].
Proof.
  revert cur. induction l as [|d l IH]; intros cur Hl; [done|].
  simpl in Hl. apply orb_false_elim in Hl as [Hd Hl].
  unfold oneByte in *. cbn [Split_go]. rewrite prefix_byte, Hd. by rewrite IH.
Qed.

Lemma Split_go_sep c cur l rest :
  hasByte c l = false →
  Split_go (oneByte c) 0 cur (l +:+ String c rest)
  = String.rev_app cur l :: Split_go (oneByte c) 0 EmptyString rest.
Proof.
  revert cur. induction l as [|d l IH]; intros cur Hl.
  - change (EmptyString +:+ String c rest) with (String c rest).
    unfold oneByte. cbn [Split_go]. rewrite prefix_byte.
    by rewrite bool_decide_eq_true_2.
  - simpl in Hl. apply orb_false_elim in Hl as [Hd Hl].
    rewrite append_cons. unfold oneByte in *. cbn [Split_go].
    rewrite prefix_byte, Hd. by rewrite IH.
Qed.

(** Splitting what was joined gives the pieces back, when there is at least
    one piece and none holds the separator. *)
Lemma Split_Join c elems :
  elems ≠ [] → Forall (λ l, hasByte c l = false) elems →
  Split (Join elems (oneByte c)) (oneByte c) = elems.
Proof.
  unfold Split. induction elems as [|x [|y ys] IH]; intros Hne Hall; [done|..].
  - inversion Hall; subst. simpl. by rewrite Split_go_plain.
  - inversion Hall as [|?? Hx Hrest]; subst.
    change (Join (x :: y :: ys) (oneByte c))
      with (x +:+ String c (Join (y :: ys) (oneByte c))).
    rewrite Split_go_sep by done. cbn [String.rev_app]. f_equal. by apply IH.
Qed.

(** Joining what was split gives the text back. *)
Lemma Join_Split_go c cur s :
  Join (Split_go (oneByte c) 0 cur s) (oneByte c) = String.rev_app cur s.
Proof.
  revert cur. induction s as [|d s IH]; intros cur; [done|].
  unfold oneByte in *. cbn [Split_go]. rewrite prefix_byte.
  destruct (bool_decide (d = c)) eqn:Hd.
  - apply bool_decide_eq_true_1 in Hd as ->. cbn [String.length Nat.sub].
    pose proof (Split_go_not_nil (String c EmptyString) 0 EmptyString s) as Hnn.
    specialize (IH EmptyString). cbn [String.rev_app] in IH.
    destruct (Split_go (String c EmptyString) 0 EmptyString s) as [|p ps] eqn:Hs; [done|].
    change (Join (String.rev cur :: p :: ps) (String c EmptyString))
      with (String.rev cur +:+ String c (Join (p :: ps) (String c EmptyString))).
    rewrite IH. unfold String.rev. by rewrite (rev_app_acc cur (String c s)).
  - by rewrite IH.
Qed.

Lemma Join_Split c s : Join (Split s (oneByte c)) (oneByte c) = s.
Proof. unfold Split. by rewrite Join_Split_go. Qed.

Lemma Split_go_pieces c cur s :
  hasByte c cur = false →
  Forall (λ l, hasByte c l = false) (Split_go (oneByte c) 0 cur s).
Proof.
  revert cur. induction s as [|d s IH]; intros cur Hcur.
  - repeat constructor. by rewrite hasByte_rev.
  - unfold oneByte in *. cbn [Split_go]. rewrite prefix_byte.
    destruct (bool_decide (d = c)) eqn:Hd.
    + constructor; [by rewrite hasByte_rev|]. by apply IH.
    + apply IH. simpl. by rewrite Hd.
Qed.

Lemma quoted_oneLine s : oneLine s → oneLine (quoted s).
Proof.
  unfold oneLine, quoted. intros H. rewrite !hasByte_app, H. reflexivity.
Qed.

Lemma escapeString_oneLine s : oneLine (escapeString s).
Proof.
  unfold oneLine. rewrite escapeString_bytes. apply hasByte_mapBytes.
  intros c. apply escapeAny_no_control.
Qed.

Lemma formatParts_oneLine parts : Forall oneLine (formatParts parts).
Proof.
  induction parts as [|part [|next rest] IH].
  - constructor.
  - simpl. destruct (nonEmpty part); repeat constructor.
    apply quoted_oneLine, escapeString_oneLine.
  - change (formatParts (part :: next :: rest))
      with (quoted (escapeString part +:+ bslash +:+ "n") :: formatParts (next :: rest)).
    constructor; [|done]. apply quoted_oneLine. unfold oneLine.
    rewrite hasByte_app. by rewrite (escapeString_oneLine part).
Qed.

Lemma formatField_oneLine keyword s : oneLine keyword → Forall oneLine (formatField keyword s).
Proof.
  intros Hk. unfold formatField. destruct (Contains s newline).
  - constructor; [|apply formatParts_oneLine].
    unfold oneLine. by rewrite !hasByte_app, Hk.
  - repeat constructor. unfold oneLine. rewrite !hasByte_app, Hk.
    by rewrite (quoted_oneLine _ (escapeString_oneLine s)).
Qed.

Lemma addedBlock_oneLine potEntries msgid :
  commentsOneLine potEntries → Forall oneLine (addedBlock potEntries msgid).
Proof.
  intros Hc. unfold addedBlock. repeat apply Forall_app_2.
  - by repeat constructor.
  - unfold addedComments. destruct (potEntries !! msgid) as [entry|] eqn:He.
    + specialize (Hc _ _ He). cbv beta in Hc.
      destruct (Comments entry); [by repeat constructor|done].
    + by repeat constructor.
  - by apply formatField_oneLine.
  - by repeat constructor.
Qed.

(** The lines [translatePoFile] reads back after it has written the
    added entries (lines 476-488) are the lines it wrote, when the comments
    of the template are single lines: joining with line feeds and splitting
    again loses nothing, because no line written holds a line feed. *)
Lemma added_lines_read_back potEntries content missing :
  commentsOneLine potEntries →
  Split (Join (appendMissing potEntries (Split content newline) missing) newline) newline
  = appendMissing potEntries (Split content newline) missing.
Proof.
  intros Hc. change newline with (oneByte lineFeed).
  apply Split_Join.
  - rewrite appendMissing_blocks, endWithBlank_last.
    pose proof (Split_go_not_nil (oneByte lineFeed) 0 EmptyString content) as Hnn.
    unfold Split. destruct (Split_go (oneByte lineFeed) 0 EmptyString content); done.
  - rewrite appendMissing_blocks, endWithBlank_last.
    repeat apply Forall_app_2.
    + by apply Split_go_pieces.
    + case_bool_decide; by repeat constructor.
    + induction missing as [|msgid missing IH]; [constructor|].
      cbn [fmap list_fmap mjoin list_join]. apply Forall_app_2; [|exact IH].
      by apply addedBlock_oneLine.
Qed.

(** ** Lines too long for the scanner *)

Lemma scanParts_too_long parts :
  forallb (λ raw, (N.of_nat (String.length raw) <? 65536)%N) parts = false →
  (scanParts parts).2 = true.
Proof.
  induction parts as [|raw parts IH]; [done|].
  cbn [forallb scanParts]. unfold fitsScanner, maxScanTokenSize.
  destruct (N.of_nat (String.length raw) <? 65536)%N; [|done].
  cbn [andb]. intros H. specialize (IH H).
  by destruct (scanParts parts).
Qed.

Lemma forallb_removelast {A} (f : A → bool) (l : list A) (d : A) :
  forallb f l = false → f (List.last l d) = true → forallb f (removelast l) = false.
Proof.
  induction l as [|a l IH]; [done|].
  destruct l as [|b l].
  - simpl. intros H1 H2. by rewrite H2 in H1.
  - intros H1 H2. cbn [removelast forallb] in *.
    destruct (f a); [|done]. cbn [andb] in *. by apply IH.
Qed.

(** X5. A template with a line of 64 KiB or more is never parsed: the error of
    the scanner comes back, unless a line before it made the parser panic. *)
Theorem parsePotFile_refuses_long_line fs potFile content :
  fs !! potFile = Some content →
  forallb (λ raw, (N.of_nat (String.length raw) <? 65536)%N) (Split content newline)
  = false →
  parsePotFile fs potFile = Fail "bufio.Scanner: token too long"
  ∨ parsePotFile fs potFile = Crash.
Proof.
  intros Hfile Hlong. unfold parsePotFile. rewrite Hfile.
  assert ((scanFile content).2 = true) as Htoo.
  { unfold scanFile.
    destruct (isEmpty (List.last (Split content newline) "x")) eqn:Hlast.
    - apply scanParts_too_long, (forallb_removelast _ _ "x"); [done|].
      by destruct (List.last (Split content newline) "x").
    - by apply scanParts_too_long. }
  destruct (scanFile content) as [lines tooLong]. simpl in Htoo. subst tooLong.
  destruct (parsePotLines lines); [by left|by right].
Qed.

Lemma parsePotFile_refuses_long_line_witness :
  parsePotFile {[ "default.pot" := poLongLine ]} "default.pot"
  = Fail "bufio.Scanner: token too long"
  ∨ parsePotFile {[ "default.pot" := poLongLine ]} "default.pot" = Crash.
Proof.
  apply (parsePotFile_refuses_long_line {[ "default.pot" := poLongLine ]} "default.pot"
           poLongLine).
  - reflexivity.
  - vm_compute. reflexivity.
Defined.

(** ** The first language of a file *)

Lemma firstLanguage_at lines i line lang :
  lines !! i = Some line →
  languageOf line = Some lang →
  (∀ j before, j < i → lines !! j = Some before → languageOf before = None) →
  firstLanguage lines = Some lang.
Proof.
  revert i. induction lines as [|l lines IH]; intros i Hi Hlang Hbefore; [done|].
  destruct i as [|i].
  - injection Hi as ->. simpl. by rewrite Hlang.
  - simpl. rewrite (Hbefore 0 l) by (done || lia).
    apply (IH i); [done..|].
    intros j before Hj Hlook. apply (Hbefore (S j) before); [lia|done].
Qed.

Lemma lookup_removelast {A} (l : list A) (i : nat) :
  S i < length l → removelast l !! i = l !! i.
Proof.
  revert i. induction l as [|a l IH]; intros i Hi; [simpl in Hi; lia|].
  destruct l as [|b l]; [simpl in Hi; lia|].
  destruct i as [|i]; [done|].
  cbn [removelast]. cbn [lookup list_lookup]. apply IH. simpl in *. lia.
Qed.

Lemma lookup_removelast_Some {A} (l : list A) (i : nat) (x : A) :
  removelast l !! i = Some x → l !! i = Some x.
Proof.
  revert i. induction l as [|a l IH]; intros i; [done|].
  destruct l as [|b l]; [by destruct i|].
  destruct i as [|i]; [done|]. cbn [removelast]. cbn [lookup list_lookup]. apply IH.
Qed.

Lemma last_lookup_length {A} (l : list A) (d x : A) (i : nat) :
  l !! i = Some x → S i = length l → List.last l d = x.
Proof.
  revert i. induction l as [|a l IH]; intros i Hi Hlen; [done|].
  destruct l as [|b l].
  - destruct i; [by injection Hi|simpl in Hlen; lia].
  - destruct i as [|i]; [simpl in Hlen; lia|].
    change (List.last (a :: b :: l) d) with (List.last (b :: l) d).
    apply (IH i); [done|]. simpl in *. lia.
Qed.

(** X6. In a file all of whose lines are shorter than 64 KiB, the target
    language is the one carried by the first line that carries one. *)
Theorem getTargetLanguage_first_field fs poFile content i raw lang :
  fs !! poFile = Some content →
  forallb (λ raw, (N.of_nat (String.length raw) <? 65536)%N) (Split content newline)
  = true →
  Split content newline !! i = Some raw →
  carriesLanguage (TrimSuffix raw (byte 13)) lang →
  (∀ j before other, j < i → Split content newline !! j = Some before →
                     ¬ carriesLanguage (TrimSuffix before (byte 13)) other) →
  getTargetLanguage fs poFile = Done lang.
Proof.
  intros Hfile Hfit Hi Hlang Hbefore.
  unfold getTargetLanguage. rewrite Hfile.
  assert (Forall (λ raw, (N.of_nat (String.length raw) < maxScanTokenSize)%N)
            (Split content newline)) as Hall.
  { apply Forall_forall. intros x Hx.
    rewrite forallb_forall in Hfit. apply N.ltb_lt, Hfit. by apply list_elem_of_In. }
  assert (firstLanguage (scanLines content) = Some lang) as ->; [|done].
  apply languageOf_carries in Hlang.
  assert (∀ parts, (∀ j x, parts !! j = Some x → Split content newline !! j = Some x) →
                   parts !! i = Some raw →
                   firstLanguage (dropCR <$> parts) = Some lang) as Hgen.
  { intros parts Hsub Hraw. apply (firstLanguage_at _ i (dropCR raw)); [|done|].
    - by rewrite list_lookup_fmap, Hraw.
    - intros j before Hj Hlook. rewrite list_lookup_fmap in Hlook.
      destruct (parts !! j) as [x|] eqn:Hx; [|done]. injection Hlook as <-.
      destruct (languageOf (dropCR x)) as [other|] eqn:Hother; [|done].
      apply languageOf_carries in Hother.
      by destruct (Hbefore j x other Hj (Hsub _ _ Hx)). }
  unfold scanLines, scanFile.
  destruct (isEmpty (List.last (Split content newline) "x")) eqn:Hlast.
  - rewrite scanParts_fit by by apply Forall_removelast. cbn [fst].
    apply Hgen; [apply lookup_removelast_Some|].
    rewrite lookup_removelast; [done|].
    pose proof (lookup_lt_Some _ _ _ Hi) as Hlt.
    destruct (decide (S i = length (Split content newline))) as [Heq|]; [|lia].
    rewrite (last_lookup_length _ "x" raw i Hi Heq) in Hlast.
    destruct raw; [|done]. vm_compute in Hlang. discriminate.
  - rewrite scanParts_fit by done. cbn [fst]. by apply Hgen.
Qed.

Lemma getTargetLanguage_first_field_witness :
  getTargetLanguage {[ "messages_fr.po" := poCAOld ]} "messages_fr.po" = Done "es".
Proof.
  apply (getTargetLanguage_first_field {[ "messages_fr.po" := poCAOld ]} "messages_fr.po"
           poCAOld 2 (quoted ("Language: es" +:+ bslash +:+ "n")) "es").
  - reflexivity.
  - vm_compute. reflexivity.
  - vm_compute. reflexivity.
  - split; [vm_compute; reflexivity|]. split; [done|].
    do 3 eexists. split; [vm_compute; reflexivity|]. vm_compute. reflexivity.
  - intros j before other Hj Hlook [Hcontains _].
    destruct j as [|[|j]]; [..|lia]; vm_compute in Hlook; injection Hlook as <-;
      vm_compute in Hcontains; discriminate.
Defined.

(** ** The language written into the template *)

Lemma setLanguage_none language lines :
  Forall (λ line, Contains line (dquote +:+ "Language:") = false) lines →
  setLanguage language lines = None.
Proof.
  induction 1 as [|line lines Hline _ IH]; [done|].
  simpl. by rewrite Hline, IH.
Qed.

Lemma setLanguage_first language before line after :
  Forall (λ line, Contains line (dquote +:+ "Language:") = false) before →
  Contains line (dquote +:+ "Language:") = true →
  setLanguage language (before ++ line :: after)
  = Some (before ++ headerField "Language" language :: after).
Proof.
  intros Hbefore Hline. induction Hbefore as [|l before Hl _ IH]; simpl.
  - by rewrite Hline.
  - by rewrite Hl, IH.
Qed.

Lemma addLanguage_none language lines :
  Forall (λ line, Contains line (dquote +:+ "Content-Type:") = false) lines →
  addLanguage language lines = None.
Proof.
  induction 1 as [|line lines Hline _ IH]; [done|].
  simpl. by rewrite Hline, IH.
Qed.

Lemma addLanguage_first language before line after :
  Forall (λ line, Contains line (dquote +:+ "Content-Type:") = false) before →
  Contains line (dquote +:+ "Content-Type:") = true →
  addLanguage language (before ++ line :: after)
  = Some (before ++ line :: headerField "Language" language :: after).
Proof.
  intros Hbefore Hline. induction Hbefore as [|l before Hl _ IH]; simpl.
  - by rewrite Hline.
  - by rewrite Hl, IH.
Qed.

(** X7. [updatePotLanguage] changes one line of the template or adds one. If a
    line holds a quoted [Language:], the first such line becomes the field
    with the language given and every other line stays. If none does, the
    field is put in as a new line right after the first line that holds a
    quoted [Content-Type:]. If no line holds either, the function fails and
    writes nothing. *)
Theorem updatePotLanguage_one_line potFile language (w : world) content :
  files w !! potFile = Some content →
  let field := dquote +:+ "Language: " +:+ language +:+ bslash +:+ "n" +:+ dquote in
  (∀ before line after,
     Split content newline = before ++ line :: after →
     Forall (λ line, Contains line (dquote +:+ "Language:") = false) before →
     Contains line (dquote +:+ "Language:") = true →
     updatePotLanguage potFile language w
     = (Done (), writeFile potFile (Join (before ++ field :: after) newline) w))
  ∧ (∀ before line after,
       Forall (λ line, Contains line (dquote +:+ "Language:") = false)
         (Split content newline) →
       Split content newline = before ++ line :: after →
       Forall (λ line, Contains line (dquote +:+ "Content-Type:") = false) before →
       Contains line (dquote +:+ "Content-Type:") = true →
       updatePotLanguage potFile language w
       = (Done (), writeFile potFile (Join (before ++ line :: field :: after) newline) w))
  ∧ (Forall (λ line, Contains line (dquote +:+ "Language:") = false
                     ∧ Contains line (dquote +:+ "Content-Type:") = false)
       (Split content newline) →
     updatePotLanguage potFile language w
     = (Fail "could not find appropriate place to insert Language header", w)).
Proof.
  intros Hfile field. unfold updatePotLanguage. rewrite Hfile. cbv zeta.
  assert (headerField "Language" language = field) as Hfield
    by (by rewrite headerField_spelled).
  split; [|split].
  - intros before line after Hsplit Hbefore Hline.
    by rewrite Hsplit, (setLanguage_first _ _ _ _ Hbefore Hline), Hfield.
  - intros before line after Hno Hsplit Hbefore Hline.
    rewrite (setLanguage_none _ _ Hno).
    by rewrite Hsplit, (addLanguage_first _ _ _ _ Hbefore Hline), Hfield.
  - intros Hno.
    rewrite setLanguage_none by (eapply Forall_impl; [exact Hno|]; by intros ? [? _]).
    rewrite addLanguage_none by (eapply Forall_impl; [exact Hno|]; by intros ? [_ ?]).
    done.
Qed.

Lemma updatePotLanguage_one_line_witness :
  let w := newWorld {[ "default.pot" := potAB ]} in
  updatePotLanguage "default.pot" "nl" w
  = (Done (),
     writeFile "default.pot"
       (Join ([ msgidLine EmptyString; emptyMsgstr ]
              ++ (dquote +:+ "Language: nl" +:+ bslash +:+ "n" +:+ dquote)
              :: [ EmptyString; msgidLine "a"; emptyMsgstr;
                   EmptyString; msgidLine "b"; emptyMsgstr; EmptyString ]) newline) w).
Proof.
  intros w.
  refine (proj1 (updatePotLanguage_one_line "default.pot" "nl" w potAB _)
            [ msgidLine EmptyString; emptyMsgstr ]
            (quoted ("Language: en" +:+ bslash +:+ "n"))
            [ EmptyString; msgidLine "a"; emptyMsgstr;
              EmptyString; msgidLine "b"; emptyMsgstr; EmptyString ] _ _ _).
  - reflexivity.
  - vm_compute. reflexivity.
  - repeat constructor.
  - vm_compute. reflexivity.
Defined.

(** ** Full reconstruction: translations already there *)





(** ** Incremental synchronisation: a second run *)

Lemma TrimSpace_between c t :
  (∀ x, stripOne spaceSeqs (String c x) = None) →
  TrimSpace (String c (t +:+ dquote)) = String c (t +:+ dquote).
Proof.
  intros Hl. unfold TrimSpace, trimRight, trimLeft.
  assert (∀ x, stripOne (String.rev <$> spaceSeqs) (String (ascii_of_nat 34) x) = None) as Hr
    by (intros x; reflexivity).
  rewrite (trimLeft_go_kept _ _ _ (Hl _)).
  assert (String.rev (String c (t +:+ dquote))
          = String (ascii_of_nat 34) (String.rev_app t (String c EmptyString))) as Hrev.
  { unfold String.rev. cbn [String.rev_app]. by rewrite rev_app_append. }
  rewrite Hrev, (trimLeft_go_kept _ _ _ (Hr _)), <- Hrev.
  apply rev_involutive.
Qed.

Lemma escapeString_line_feed piece :
  escapeString (piece +:+ newline) = escapeString piece +:+ bslash +:+ "n".
Proof.
  rewrite !escapeString_bytes, mapBytes_append. reflexivity.
Qed.

Lemma scanStep_blank st :
  scanStep st EmptyString
  = Some (mkScanState (sc_currentMsgid st) false false (sc_existing st)).
Proof. reflexivity. Qed.

Lemma scanStep_comment st comment :
  isComment (TrimSpace comment) = true →
  scanStep st comment
  = Some (mkScanState (sc_currentMsgid st) false false (sc_existing st)).
Proof.
  unfold isComment, HasPrefix. intros H. unfold scanStep.
  destruct (TrimSpace comment) as [|c rest]; [discriminate H|].
  cbn [String.prefix] in H.
  destruct (ascii_dec _ c) as [<-|]; [|discriminate H].
  unfold isMsgid, isMsgstr, isLiteral, isComment, HasPrefix, dquote, byte.
  cbn [String.prefix ascii_of_nat ascii_of_pos Pos.of_succ_nat Pos.succ shift].
  destruct (ascii_dec _ _) as [?|_]; [discriminate|].
  destruct (ascii_dec _ _) as [?|_]; [discriminate|].
  destruct (ascii_dec _ _) as [_|?]; [|done].
  cbn [andb isEmpty orb]. rewrite H. reflexivity.
Qed.

Lemma scanStep_msgid st msgid :
  hasByte backslash msgid = false →
  scanStep st ("msgid " +:+ dquote +:+ escapeString msgid +:+ dquote)
  = Some (mkScanState msgid true false (sc_existing st)).
Proof.
  intros Hplain. unfold scanStep.
  change ("msgid " +:+ dquote +:+ escapeString msgid +:+ dquote)
    with (String "m" (("sgid " +:+ dquote +:+ escapeString msgid) +:+ dquote)).
  rewrite TrimSpace_between by (intros x; reflexivity).
  change (isMsgid (String "m" (("sgid " +:+ dquote +:+ escapeString msgid) +:+ dquote)))
    with true.
  change (dropBytes 6 (String "m" (("sgid " +:+ dquote +:+ escapeString msgid) +:+ dquote)))
    with (quoted (escapeString msgid)).
  cbv iota. by rewrite round_trip_plain.
Qed.

Lemma scanStep_literal st text read :
  sc_inMsgid st = true →
  extractString (quoted text) = Some read →
  scanStep st (dquote +:+ text +:+ dquote)
  = Some (mkScanState (sc_currentMsgid st +:+ read) true (sc_inMsgstr st)
            (sc_existing st)).
Proof.
  intros Hin Hread. unfold scanStep. fold (quoted text).
  rewrite TrimSpace_quoted.
  change (isMsgid (quoted text)) with false.
  change (isMsgstr (quoted text)) with false.
  assert (isLiteral (quoted text) = true) as ->.
  { change (quoted text) with (String (ascii_of_nat 34) (text +:+ dquote)).
    unfold isLiteral, HasPrefix, dquote, byte.
    by rewrite prefix_byte, bool_decide_eq_true_2. }
  cbv iota. rewrite Hin. cbn [andb]. by rewrite Hread.
Qed.

Lemma scanStep_empty_msgstr st :
  scanStep st ("msgstr " +:+ dquote +:+ dquote)
  = Some (mkScanState (sc_currentMsgid st) false true
            (if nonEmpty (sc_currentMsgid st)
             then <[sc_currentMsgid st := true]> (sc_existing st)
             else sc_existing st)).
Proof. reflexivity. Qed.

Lemma Split_go_without x c cur s :
  hasByte x cur = false → hasByte x s = false →
  Forall (λ piece, hasByte x piece = false) (Split_go (oneByte c) 0 cur s).
Proof.
  revert cur. induction s as [|d s IH]; intros cur Hcur Hs.
  - repeat constructor. by rewrite hasByte_rev.
  - simpl in Hs. apply orb_false_elim in Hs as [Hd Hs].
    unfold oneByte in *. cbn [Split_go]. rewrite prefix_byte.
    destruct (bool_decide (d = c)).
    + constructor; [by rewrite hasByte_rev|]. by apply IH.
    + apply IH; [|done]. simpl. by rewrite Hd, Hcur.
Qed.

(** The literals of a key written on several lines read back as the key. *)
Lemma scan_pieces existing pieces cur :
  pieces ≠ [] →
  Forall (λ piece, hasByte backslash piece = false) pieces →
  foldM scanStep (mkScanState cur true false existing)
    (((λ piece, dquote +:+ escapeString piece +:+ bslash +:+ "n" +:+ dquote)
        <$> removelast pieces)
     ++ (if bool_decide (List.last pieces EmptyString = EmptyString) then []
         else [dquote +:+ escapeString (List.last pieces EmptyString) +:+ dquote]))
  = Some (mkScanState (cur +:+ Join pieces newline) true false existing).
Proof.
  intros _ Hplain. revert cur.
  induction Hplain as [|piece pieces Hpiece Hrest IH]; intros cur.
  - simpl. by rewrite append_nil_r.
  - destruct pieces as [|next pieces].
    + change (List.last [piece] EmptyString) with piece.
      cbn [removelast fmap list_fmap app Join].
      destruct (decide (piece = EmptyString)) as [->|Hlast].
      * simpl. by rewrite append_nil_r.
      * rewrite bool_decide_eq_false_2 by done.
        cbn [foldM]. rewrite (scanStep_literal _ _ piece); [done|done|].
        by apply round_trip_plain.
    + change (removelast (piece :: next :: pieces))
        with (piece :: removelast (next :: pieces)).
      change (List.last (piece :: next :: pieces) EmptyString)
        with (List.last (next :: pieces) EmptyString).
      change (Join (piece :: next :: pieces) newline)
        with (piece +:+ newline +:+ Join (next :: pieces) newline).
      rewrite fmap_cons. cbn [app foldM].
      rewrite <- quoted_line_feed. unfold quoted at 1.
      rewrite (scanStep_literal _ _ (piece +:+ newline)); [|done|].
      * cbn [mbind option_bind sc_currentMsgid sc_inMsgstr sc_existing].
        rewrite IH. by rewrite !append_assoc.
      * rewrite <- escapeString_line_feed.
        apply round_trip_plain. rewrite hasByte_app, Hpiece. reflexivity.
Qed.

Lemma scan_key st msgid :
  hasByte backslash msgid = false →
  foldM scanStep st (keyLinesOf "msgid" msgid)
  = Some (mkScanState msgid true false (sc_existing st)).
Proof.
  intros Hplain. unfold keyLinesOf.
  destruct (hasByte lineFeed msgid) eqn:Hfeed.
  - cbn [foldM].
    change (scanStep st ("msgid" +:+ " " +:+ dquote +:+ dquote))
      with (Some (mkScanState EmptyString true false (sc_existing st))).
    cbn [mbind option_bind].
    rewrite scan_pieces.
    + change newline with (oneByte lineFeed). by rewrite Join_Split.
    + apply Split_go_not_nil.
    + change newline with (oneByte lineFeed). by apply Split_go_without.
  - cbn [foldM].
    change ("msgid" +:+ " " +:+ dquote +:+ escapeString msgid +:+ dquote)
      with ("msgid " +:+ dquote +:+ escapeString msgid +:+ dquote).
    by rewrite scanStep_msgid.
Qed.

Lemma scan_comments st comments :
  Forall (λ comment, isComment (TrimSpace comment) = true) comments →
  sc_inMsgid st = false → sc_inMsgstr st = false →
  foldM scanStep st comments = Some st.
Proof.
  intros Hall Hid Hstr. induction Hall as [|comment comments Hc _ IH]; [done|].
  cbn [foldM]. rewrite (scanStep_comment _ _ Hc). cbn [mbind option_bind].
  destruct st as [cur inMsgid inMsgstr existing]. simpl in *. subst. exact IH.
Qed.

(** The lines of an added entry read back as an entry with its key. *)
Lemma scan_block potEntries st msgid :
  commentsAreComments potEntries →
  msgid ≠ EmptyString →
  hasByte backslash msgid = false →
  foldM scanStep st (addedEntryLines potEntries msgid)
  = Some (mkScanState msgid false true (<[msgid := true]> (sc_existing st))).
Proof.
  intros Hcomments Hne Hplain. unfold addedEntryLines.
  rewrite foldM_app. cbn [foldM]. rewrite scanStep_blank. cbn [mbind option_bind].
  rewrite foldM_app, scan_comments; [|..|done|done].
  - cbn [mbind option_bind]. rewrite foldM_app, scan_key by done.
    cbn [mbind option_bind sc_existing foldM]. rewrite scanStep_empty_msgstr.
    cbn [mbind option_bind sc_currentMsgid sc_existing].
    by destruct msgid.
  - destruct (potEntries !! msgid) as [[msgstr [|comment comments]]|] eqn:Hentry.
    + repeat constructor.
    + specialize (Hcomments _ _ Hentry). cbv beta in Hcomments. simpl in Hcomments.
      eapply Forall_impl; [exact Hcomments|]. by intros ? [_ ?].
    + repeat constructor.
Qed.

Lemma scan_blocks potEntries missing st :
  commentsAreComments potEntries →
  Forall (λ msgid, msgid ≠ EmptyString ∧ hasByte backslash msgid = false) missing →
  ∃ st',
    foldM scanStep st (mjoin (addedEntryLines potEntries <$> missing)) = Some st' ∧
    (∀ msgid, sc_existing st !! msgid = Some true → sc_existing st' !! msgid = Some true) ∧
    (∀ msgid, msgid ∈ missing → sc_existing st' !! msgid = Some true).
Proof.
  intros Hcomments Hall. revert st.
  induction Hall as [|k missing [Hne Hplain] _ IH]; intros st.
  - exists st. split; [done|]. split; [done|]. by intros ? ?%elem_of_nil.
  - cbn [fmap list_fmap mjoin list_join]. rewrite foldM_app, scan_block by done.
    cbn [mbind option_bind].
    destruct (IH (mkScanState k false true (<[k := true]> (sc_existing st))))
      as (st' & Hscan & Hkeep & Hfound).
    exists st'. split; [done|]. cbn [sc_existing] in Hkeep. split.
    + intros msgid Hmsgid. apply Hkeep.
      destruct (decide (msgid = k)) as [->|]; [apply lookup_insert_eq|].
      by rewrite lookup_insert_ne.
    + intros msgid [->|Hin]%elem_of_cons; [|by apply Hfound].
      apply Hkeep, lookup_insert_eq.
Qed.

(** After the missing entries are appended, the first pass finds every
    key of the template that holds no backslash. *)
Lemma collectExisting_added potEntries lines existing visit :
  collectExisting lines = Some existing →
  commentsAreComments potEntries →
  Forall (λ msgid, hasByte backslash msgid = false) visit →
  ∃ existing',
    collectExisting
      (lines
       ++ (if bool_decide (List.last lines EmptyString = EmptyString) then []
           else [EmptyString])
       ++ mjoin (addedEntryLines potEntries
                   <$> filter (λ msgid, msgid ≠ EmptyString
                                        ∧ existing !! msgid ≠ Some true) visit))
    = Some existing' ∧
    ∀ msgid, msgid ∈ visit → msgid ≠ EmptyString → existing' !! msgid = Some true.
Proof.
  intros Hexisting Hcomments Hplain. unfold collectExisting in *.
  destruct (foldM scanStep scanInit lines) as [st0|] eqn:Hscan; [|done].
  injection Hexisting as <-.
  rewrite foldM_app, Hscan. cbn [mbind option_bind]. rewrite foldM_app.
  assert (∃ st1, foldM scanStep st0
                   (if bool_decide (List.last lines EmptyString = EmptyString) then []
                    else [EmptyString]) = Some st1
                 ∧ sc_existing st1 = sc_existing st0) as (st1 & -> & Hst1).
  { case_bool_decide; [by exists st0|].
    cbn [foldM]. rewrite scanStep_blank. by eexists. }
  cbn [mbind option_bind].
  destruct (scan_blocks potEntries
              (filter (λ msgid, msgid ≠ EmptyString
                                ∧ sc_existing st0 !! msgid ≠ Some true) visit) st1)
    as (st' & -> & Hkeep & Hfound); [done| |].
  { apply Forall_forall. intros msgid [[Hne _] Hin]%list_elem_of_filter.
    split; [done|]. rewrite Forall_forall in Hplain. by apply Hplain. }
  eexists. split; [reflexivity|].
  intros msgid Hin Hne.
  destruct (decide (sc_existing st0 !! msgid = Some true)) as [Hthere|Hnot].
  - apply Hkeep. by rewrite Hst1.
  - apply Hfound. by apply list_elem_of_filter.
Qed.

Lemma filter_none {A} (P : A → Prop) `{∀ x, Decision (P x)} (l : list A) :
  (∀ x, x ∈ l → ¬ P x) → filter P l = [].
Proof.
  induction l as [|a l IH]; intros Hnone; [done|].
  rewrite filter_cons_False by (apply Hnone; left).
  apply IH. intros x Hx. apply Hnone. by right.
Qed.

Lemma commentsAreComments_oneLine potEntries :
  commentsAreComments potEntries → commentsOneLine potEntries.
Proof.
  intros Hall msgid entry Hentry. specialize (Hall msgid entry Hentry).
  cbv beta in *. eapply Forall_impl; [exact Hall|]. by intros ? [? _].
Qed.

(** What a run that returns 0 leaves behind: a file in which the first
    pass finds every key of the visit and the second pass does not panic. *)
Lemma run_without_count e visit poFile potEntries src tgt (w w' : world) :
  commentsAreComments potEntries →
  Forall (λ msgid, hasByte backslash msgid = false) visit →
  translatePoFile e visit poFile potEntries src tgt w = (Done 0, w') →
  ∃ content existing,
    files w' !! poFile = Some content ∧
    collectExisting (Split content newline) = Some existing ∧
    (∀ msgid, msgid ∈ visit → msgid ≠ EmptyString → existing !! msgid = Some true) ∧
    is_Some (needsTranslation potEntries (Split content newline)).
Proof.
  intros Hcomments Hplain. unfold translatePoFile.
  destruct (files w !! poFile) as [content|] eqn:Hfile; [|done].
  destruct (collectExisting (Split content newline)) as [existing|] eqn:Hexisting; [|done].
  assert (∀ lines1 w1,
    match needsTranslation potEntries lines1 with
    | None => (Crash, w1)
    | Some [] => (Done 0, w1)
    | Some needs =>
        let '(translations, translatedCount, w2) :=
          translateLoop e src tgt needs ∅ 0 w1 in
        if translatedCount =? 0 then (Done 0, w2)
        else
          match applyTranslations translations lines1 with
          | None => (Crash, w2)
          | Some newLines =>
              (Done translatedCount, writeFile poFile (Join newLines newline) w2)
          end
    end = (Done 0, w') →
    is_Some (needsTranslation potEntries lines1) ∧ files w' = files w1) as Htail.
  { intros lines1 w1.
    destruct (needsTranslation potEntries lines1) as [[|msgid needs]|]; [| |done].
    - intros [= <-]. eauto.
    - destruct (translateLoop_trace e src tgt (msgid :: needs) ∅ 0 w1)
        as (evs & _ & Hfiles & _).
      destruct (translateLoop e src tgt (msgid :: needs) ∅ 0 w1)
        as [[translations n] w2].
      destruct n as [|n]; cbn [Nat.eqb].
      + intros [= <-]. eauto.
      + by destruct (applyTranslations translations lines1). }
  rewrite missingMsgids_spelled.
  destruct (filter (λ msgid, msgid ≠ EmptyString ∧ existing !! msgid ≠ Some true) visit)
    as [|m ms] eqn:Hmissing.
  - intros Hrun. destruct (Htail _ _ Hrun) as [Hneeds Hfiles].
    exists content, existing. rewrite Hfiles. repeat split; try done.
    intros msgid Hin Hne.
    destruct (decide (existing !! msgid = Some true)) as [|Hnot]; [done|].
    assert (msgid ∈ filter (λ msgid, msgid ≠ EmptyString ∧ existing !! msgid ≠ Some true)
                       visit) as Habs by (by apply list_elem_of_filter).
    rewrite Hmissing in Habs. by apply elem_of_nil in Habs.
  - rewrite <- Hmissing. clear m ms Hmissing.
    cbv beta iota zeta.
    rewrite appendMissing_spelled.
    set (added := Split content newline
                  ++ (if bool_decide (List.last (Split content newline) EmptyString
                                      = EmptyString) then [] else [EmptyString])
                  ++ mjoin (addedEntryLines potEntries
                              <$> filter (λ msgid, msgid ≠ EmptyString
                                                   ∧ existing !! msgid ≠ Some true) visit)).
    assert (files (writeFile poFile (Join added newline) w) !! poFile
            = Some (Join added newline)) as Hread by apply lookup_insert_eq.
    rewrite Hread. cbn [default from_option id].
    intros Hrun. destruct (Htail _ _ Hrun) as [Hneeds Hfiles].
    destruct (collectExisting_added potEntries (Split content newline) existing visit
                Hexisting Hcomments Hplain) as (existing' & Hfound & Hall).
    assert (Split (Join added newline) newline = added) as Hback.
    { unfold added. rewrite <- appendMissing_spelled.
      apply added_lines_read_back. by apply commentsAreComments_oneLine. }
    exists (Join added newline), existing'.
    rewrite Hfiles, Hread. rewrite Hback in *. done.
Qed.

(** A run with a backend that fails, on a file in which no key is missing,
    returns 0 and writes nothing. *)
Lemma run_nothing_missing e visit poFile potEntries src tgt (w : world) content existing :
  files w !! poFile = Some content →
  collectExisting (Split content newline) = Some existing →
  (∀ msgid, msgid ∈ visit → msgid ≠ EmptyString → existing !! msgid = Some true) →
  is_Some (needsTranslation potEntries (Split content newline)) →
  (∀ i text, backend e i text src tgt = None) →
  (translatePoFile e visit poFile potEntries src tgt w).1 = Done 0 ∧
  files (translatePoFile e visit poFile potEntries src tgt w).2 = files w ∧
  ∃ evs,
    trace (translatePoFile e visit poFile potEntries src tgt w).2 = trace w ++ evs ∧
    Forall (λ ev, isWrite ev = false) evs.
Proof.
  intros Hfile Hexisting Hall [needs Hneeds] Hfail. unfold translatePoFile.
  rewrite Hfile, Hexisting, missingMsgids_spelled.
  rewrite filter_none by (intros msgid Hin [Hne Hnot]; by apply Hnot, Hall).
  rewrite Hneeds. destruct needs as [|msgid needs].
  - repeat split; [done..|]. exists []. by rewrite app_nil_r.
  - destruct (translateLoop_trace e src tgt (msgid :: needs) ∅ 0 w)
      as (evs & Htrace & Hfiles & _ & Hwrites).
    pose proof (translateLoop_all_fail e src tgt (msgid :: needs) ∅ 0 w Hfail) as Hcount.
    destruct (translateLoop e src tgt (msgid :: needs) ∅ 0 w) as [[translations n] w2].
    cbn [fst snd] in *. injection Hcount as -> ->. cbn [Nat.eqb fst snd].
    repeat split; [done..|]. by exists evs.
Qed.

(** *** The comments the parser collects *)

Lemma hasByte_takeBytes c n s : hasByte c s = false → hasByte c (takeBytes n s) = false.
Proof.
  revert n. induction s as [|d s IH]; intros n Hs; [by destruct n|].
  destruct n as [|n]; [done|]. simpl in *.
  apply orb_false_elim in Hs as [-> Hs]. by rewrite IH.
Qed.

Lemma scanParts_oneLine parts :
  Forall oneLine parts → Forall oneLine (scanParts parts).1.
Proof.
  induction 1 as [|raw parts Hraw _ IH]; [constructor|].
  cbn [scanParts]. destruct (fitsScanner raw); [|constructor].
  destruct (scanParts parts) as [lines tooLong]. cbn [fst] in *.
  constructor; [|done]. unfold dropCR, TrimSuffix.
  destruct (HasSuffix raw (byte 13)); [|done]. by apply hasByte_takeBytes.
Qed.

Lemma scanFile_oneLine content : Forall oneLine (scanFile content).1.
Proof.
  unfold scanFile. apply scanParts_oneLine.
  assert (Forall oneLine (Split content newline)) as Hall.
  { change newline with (oneByte lineFeed). by apply Split_go_pieces. }
  destruct (isEmpty (List.last (Split content newline) "x")); [|done].
  by apply Forall_removelast.
Qed.

Lemma potSave_comments st : commentsSoFar st → commentsAreComments (potSave st).
Proof.
  intros (Hentries & Hcurrent & _). unfold potSave.
  destruct (nonEmpty (pot_currentMsgid st)); [|done].
  by apply map_Forall_insert_2.
Qed.

Lemma potStep_comments st line st' :
  oneLine line → commentsSoFar st → potStep st line = Some st' → commentsSoFar st'.
Proof.
  intros Hline Hinv. pose proof (potSave_comments st Hinv) as Hsave.
  destruct Hinv as (Hentries & Hcurrent & Hpending).
  unfold potStep. cbv zeta.
  destruct (isMsgid (TrimSpace line)).
  { destruct (extractString _); [|done]. intros [= <-]. by repeat split. }
  destruct (isMsgstr (TrimSpace line)).
  { destruct (extractString _); [|done]. intros [= <-]. by repeat split. }
  destruct (isLiteral (TrimSpace line) && (pot_inMsgid st || pot_inMsgstr st)).
  { destruct (extractString _); [|done].
    destruct (pot_inMsgid st); intros [= <-]; by repeat split. }
  destruct (isComment (TrimSpace line)) eqn:Hcomment.
  { intros [= <-]. split; [done|]. split; [done|]. cbn [pot_pendingComments].
    destruct (negb (pot_inMsgid st) && negb (pot_inMsgstr st)); [|done].
    apply Forall_app_2; [done|]. by repeat constructor. }
  destruct (isEmpty (TrimSpace line)); intros [= <-]; by repeat split.
Qed.

Lemma parsePotLines_comments lines entries lang :
  Forall oneLine lines →
  parsePotLines lines = Some (entries, lang) →
  commentsAreComments entries.
Proof.
  intros Hlines. unfold parsePotLines.
  assert (∀ st st', commentsSoFar st → foldM potStep st lines = Some st' →
                    commentsSoFar st') as Hfold.
  { induction Hlines as [|line lines Hline _ IH]; intros st st' Hinv; simpl.
    - by intros [= <-].
    - destruct (potStep st line) as [st1|] eqn:Hstep; [|done]. simpl.
      apply IH. by eapply potStep_comments. }
  destruct (foldM potStep potInit lines) as [st|] eqn:Hscan; [|done].
  intros [= <- <-]. apply map_Forall_delete, potSave_comments.
  apply (Hfold potInit); [|done].
  split; [apply map_Forall_empty|]. by split.
Qed.

Lemma parsePotFile_comments fs potFile entries lang :
  parsePotFile fs potFile = Done (entries, lang) → commentsAreComments entries.
Proof.
  unfold parsePotFile. destruct (fs !! potFile) as [content|]; [|done].
  pose proof (scanFile_oneLine content) as Hlines.
  destruct (scanFile content) as [lines tooLong].
  destruct (parsePotLines lines) as [[entries' lang']|] eqn:Hparse; [|done].
  destruct tooLong; [done|]. intros [= <- <-].
  by eapply parsePotLines_comments.
Qed.

(** X9. A second run adds nothing, when no key of the template holds a
    backslash: for a template the program has parsed, after a run that
    returned 0, a run with a backend that fails returns 0 and writes nothing,
    whatever the orders of the two iterations over the template. *)
Theorem second_run_adds_nothing
    fs potFile sourceLang
    e1 e2 visit1 visit2 poFile (potEntries : gmap string POEntry) src tgt (w : world) :
  parsePotFile fs potFile = Done (potEntries, sourceLang) →
  rangeOrder potEntries visit1 →
  rangeOrder potEntries visit2 →
  (∀ msgid, msgid ∈ dom potEntries → hasByte backslash msgid = false) →
  (∀ i text, backend e2 i text src tgt = None) →
  let first := translatePoFile e1 visit1 poFile potEntries src tgt w in
  first.1 = Done 0 →
  let second := translatePoFile e2 visit2 poFile potEntries src tgt first.2 in
  second.1 = Done 0 ∧
  files second.2 = files first.2 ∧
  ∃ evs, trace second.2 = trace first.2 ++ evs ∧ Forall (λ ev, isWrite ev = false) evs.
Proof.
  intros Hparsed Hvisit1 Hvisit2 Hplain Hfail first Hfirst second.
  pose proof (parsePotFile_comments _ _ _ _ Hparsed) as Hcomments.
  unfold rangeOrder in *.
  assert (∀ msgid, msgid ∈ visit2 → msgid ∈ visit1) as Hsub.
  { intros msgid Hin. by rewrite Hvisit1, <- Hvisit2. }
  assert (Forall (λ msgid, hasByte backslash msgid = false) visit1) as Hplain1.
  { apply Forall_forall. intros msgid Hin. apply Hplain.
    rewrite Hvisit1 in Hin. by apply elem_of_elements in Hin. }
  destruct first as [r w'] eqn:Hrun. simpl in Hfirst. subst r.
  destruct (run_without_count e1 visit1 poFile potEntries src tgt w w' Hcomments Hplain1 Hrun)
    as (content & existing & Hfile & Hexisting & Hall & Hneeds).
  apply (run_nothing_missing e2 visit2 poFile potEntries src tgt w' content existing);
    [done|done| |done|done].
  intros msgid Hin Hne. apply Hall; [by apply Hsub|done].
Qed.

Lemma second_run_adds_nothing_witness :
  let e := mkEnv neverSet failingBackend in
  let first :=
    translatePoFile e ["Second"; "First"; "Third"] "po" (entriesOf potCommented)
      "en" "es" (newWorld {[ "po" := poFirstOnly ]}) in
  let second :=
    translatePoFile e ["First"; "Second"; "Third"] "po" (entriesOf potCommented)
      "en" "es" first.2 in
  length (filter (λ ev, isWrite ev = true) (trace first.2)) = 1 ∧
  second.1 = Done 0 ∧
  files second.2 = files first.2 ∧
  ∃ evs, trace second.2 = trace first.2 ++ evs ∧ Forall (λ ev, isWrite ev = false) evs.
Proof.
  intros e first second. split; [vm_compute; reflexivity|].
  apply (second_run_adds_nothing {[ "default.pot" := potCommented ]} "default.pot" "en"
           e e ["Second"; "First"; "Third"]
           ["First"; "Second"; "Third"] "po" (entriesOf potCommented) "en" "es"
           (newWorld {[ "po" := poFirstOnly ]})).
  - vm_compute. reflexivity.
  - unfold rangeOrder. by vm_compute.
  - unfold rangeOrder. vm_compute. apply Permutation_swap.
  - intros msgid Hin. apply elem_of_elements in Hin. vm_compute in Hin.
    repeat (apply elem_of_cons in Hin as [->|Hin]; [reflexivity|]).
    by apply elem_of_nil in Hin.
  - reflexivity.
  - vm_compute. reflexivity.
Defined.
